(** * The outbound event queue of the Snowplow JavaScript tracker

    A shallow embedding of [src/js/out_queue.js] (the [OutQueueManager]
    closure) and the properties of its queueing, batching and draining
    logic.

    Conventions of the embedding.
    - A JavaScript string is a [string]; each character stands for one
      UTF-16 code unit in the range U+0000..U+00FF, so [String.length] is
      the JavaScript [.length].
    - A JavaScript number is an integer [Z], to be read within the range in
      which doubles are exact and print in decimal; queue lengths, string
      lengths and status codes are such numbers. [NaN] appears only as the
      running byte count of [chooseHowManyToExecute].
    - A JavaScript object is the association list of its own enumerable
      properties in [for .. in] order, with distinct keys. No value is a
      function.
    - A computation returns, throws, or leaves the embedding ([Beyond]) when
      it would add a string to a number.
    - The asynchronous callbacks of the file (the [XMLHttpRequest] state
      handler, its timeout, the [Image] load and error handlers) are events
      of a transition system over the closure's variables. *)

From Stdlib Require Import ZArith List String Ascii Bool Lia DecimalString.
From stdpp Require Import gmap strings.
Import ListNotations.

Set Warnings "-register-all".
Local Open Scope string_scope.

(** ** JavaScript values *)

Module Js.

Inductive Value : Type :=
| JNull
| JBool (b : bool)
| JNum (n : Z)
| JStr (s : string)
| JArr (elems : list Value)
| JObj (props : list (string * Value)).

(** The results of [typeof] that the values above can have. *)
Inductive TypeTag : Type := TString | TObject | TNumber | TBoolean.

Definition typeof (v : Value) : TypeTag :=
  match v with
  | JStr _ => TString
  | JNull | JArr _ | JObj _ => TObject
  | JNum _ => TNumber
  | JBool _ => TBoolean
  end.

Definition isString (v : Value) : bool :=
  match v with JStr _ => true | _ => false end.

Definition isArray (v : Value) : bool :=
  match v with JArr _ => true | _ => false end.

(** What a piece of code can do: return, throw, or leave the embedding
    (a coercion between strings and numbers that the model does not
    cover). *)
Inductive Exn : Type :=
| TypeError
| Thrown (message : string).

Inductive Result (A : Type) : Type :=
| Ret (a : A)
| Throw (e : Exn)
| Beyond.
Arguments Ret {A} a.
Arguments Throw {A} e.
Arguments Beyond {A}.

Definition bind {A B : Type} (r : Result A) (k : A -> Result B) : Result B :=
  match r with
  | Ret a => k a
  | Throw e => Throw e
  | Beyond => Beyond
  end.

(** Own property lookup, [o.hasOwnProperty(k)] and [o[k]]. *)
Fixpoint getOwn (k : string) (props : list (string * Value)) : option Value :=
  match props with
  | [] => None
  | (k', v) :: rest => if String.eqb k k' then Some v else getOwn k rest
  end.

Definition hasOwnProperty (props : list (string * Value)) (k : string) : bool :=
  match getOwn k props with Some _ => true | None => false end.

(** [x.name] for a property name that no prototype defines: [None] is
    [undefined]; reading a property of [null] throws. *)
Definition member (x : Value) (name : string) : Result (option Value) :=
  match x with
  | JNull => Throw TypeError
  | JObj props => Ret (getOwn name props)
  | _ => Ret None
  end.

(** [String(n)] for an integer. *)
Definition Number_toString (n : Z) : string :=
  NilZero.string_of_int (Z.to_int n).

Fixpoint join (sep : string) (parts : list string) : string :=
  match parts with
  | [] => EmptyString
  | [p] => p
  | p :: rest => p +:+ sep +:+ join sep rest
  end.

(** The abstract operation ToString. An object whose own [toString] is not
    callable cannot be converted. *)
Fixpoint ToString (v : Value) : Result string :=
  match v with
  | JNull => Ret "null"
  | JBool true => Ret "true"
  | JBool false => Ret "false"
  | JNum n => Ret (Number_toString n)
  | JStr s => Ret s
  | JArr elems =>
      bind
        ((fix elements (l : list Value) : Result (list string) :=
            match l with
            | [] => Ret []
            | e :: rest =>
                bind (match e with JNull => Ret EmptyString | _ => ToString e end)
                  (fun p => bind (elements rest) (fun ps => Ret (p :: ps)))
            end) elems)
        (fun ps => Ret (join "," ps))
  | JObj props =>
      if hasOwnProperty props "toString" then Throw TypeError
      else Ret "[object Object]"
  end.

(** The method call [v.toString()]. *)
Definition toString (v : Value) : Result string :=
  match v with
  | JNull => Throw TypeError
  | _ => ToString v
  end.

End Js.

(** ** Characters, URI encoding and UTF-8 *)

Module Chars.

Definition dquote : ascii := "034"%char.
Definition backslash : ascii := "092"%char.

Definition code (c : ascii) : N := N_of_ascii c.

(** One hexadecimal digit, as [Number.prototype.toString(16)] writes it
    (lower case) or as percent-encoding writes it (upper case). *)
Definition hexDigit (upper : bool) (d : N) : ascii :=
  if (d <? 10)%N then ascii_of_N (48 + d)
  else ascii_of_N ((if upper then 55 else 87) + d).

Definition str1 (c : ascii) : string := String c EmptyString.

Fixpoint concatMap (f : ascii -> string) (s : string) : string :=
  match s with
  | EmptyString => EmptyString
  | String c rest => f c +:+ concatMap f rest
  end.

(** The number of bytes of the UTF-8 encoding of a string: a code unit
    below U+0080 takes one byte, one in U+0080..U+00FF takes two. *)
Fixpoint utf8Length (s : string) : nat :=
  match s with
  | EmptyString => 0
  | String c rest => (if (code c <? 128)%N then 1 else 2) + utf8Length rest
  end.

Definition inRange (lo hi n : N) : bool := ((lo <=? n) && (n <=? hi))%N.

(** The characters [encodeURIComponent] leaves alone:
    [A-Z a-z 0-9 - _ . ! ~ * ' ( )]. *)
Definition uriUnreserved (c : ascii) : bool :=
  let n := code c in
  inRange 65 90 n || inRange 97 122 n || inRange 48 57 n
  || existsb (N.eqb n) [45; 95; 46; 33; 126; 42; 39; 40; 41]%N.

Definition percent (byte : N) : string :=
  String "%" (String (hexDigit true (byte / 16)) (str1 (hexDigit true (byte mod 16)))).

Definition encodeChar (c : ascii) : string :=
  let n := code c in
  if uriUnreserved c then str1 c
  else if (n <? 128)%N then percent n
  else percent (192 + n / 64) +:+ percent (128 + n mod 64).

Definition encodeURIComponent (s : string) : string := concatMap encodeChar s.

End Chars.

(** ** The JSON module ([json2]) *)

Module Json.
Import Js Chars.

(** [quote]: the characters matched by json2's [escapable] expression are
    replaced by their [meta] entry or by a [\uXXXX] escape. *)
Definition escapable (c : ascii) : bool :=
  let n := code c in
  (n =? 34)%N || (n =? 92)%N || (n <? 32)%N || inRange 127 159 n || (n =? 173)%N.

Definition escapeChar (c : ascii) : string :=
  let n := code c in
  let esc (x : ascii) := String backslash (str1 x) in
  if negb (escapable c) then str1 c
  else if (n =? 8)%N then esc "b"%char
  else if (n =? 9)%N then esc "t"%char
  else if (n =? 10)%N then esc "n"%char
  else if (n =? 12)%N then esc "f"%char
  else if (n =? 13)%N then esc "r"%char
  else if (n =? 34)%N then esc dquote
  else if (n =? 92)%N then esc backslash
  else String backslash
         (String "u" (String "0" (String "0"
            (String (hexDigit false (n / 16)) (str1 (hexDigit false (n mod 16))))))).

Definition quote (s : string) : string :=
  String dquote (concatMap escapeChar s +:+ str1 dquote).

(** [json2.stringify] without replacer or indentation. *)
Fixpoint stringify (v : Value) : string :=
  match v with
  | JNull => "null"
  | JBool true => "true"
  | JBool false => "false"
  | JNum n => Number_toString n
  | JStr s => quote s
  | JArr elems => "[" +:+ join "," (map stringify elems) +:+ "]"
  | JObj props =>
      "{" +:+ join "," (map (fun kv => quote (fst kv) +:+ ":" +:+ stringify (snd kv)) props)
          +:+ "}"
  end.

(** [json2.parse]: a recursive-descent reader of JSON text. Numbers are
    read when they are integers; a fraction or an exponent has no value in
    this embedding and makes the reader fail, as does an escape above
    U+00FF. *)
Definition isWs (c : ascii) : bool :=
  existsb (N.eqb (code c)) [32; 9; 10; 13]%N.

Fixpoint skipWs (cs : list ascii) : list ascii :=
  match cs with
  | c :: rest => if isWs c then skipWs rest else cs
  | [] => []
  end.

Definition digitVal (c : ascii) : option Z :=
  let n := code c in
  if inRange 48 57 n then Some (Z.of_N n - 48)%Z else None.

Definition hexVal (c : ascii) : option N :=
  let n := code c in
  if inRange 48 57 n then Some (n - 48)%N
  else if inRange 97 102 n then Some (n - 87)%N
  else if inRange 65 70 n then Some (n - 55)%N
  else None.

Fixpoint parseDigits (acc : Z) (cs : list ascii) : Z * list ascii :=
  match cs with
  | c :: rest =>
      match digitVal c with
      | Some d => parseDigits (10 * acc + d)%Z rest
      | None => (acc, cs)
      end
  | [] => (acc, [])
  end.

Definition parseNumber (cs : list ascii) : option (Z * list ascii) :=
  let '(neg, ds) :=
    match cs with
    | "-"%char :: rest => (true, rest)
    | _ => (false, cs)
    end in
  match ds with
  | d :: _ =>
      match digitVal d with
      | None => None
      | Some _ =>
          let '(n, rest) := parseDigits 0 ds in
          match rest with
          | "."%char :: _ | "e"%char :: _ | "E"%char :: _ => None
          | _ => Some (if neg then (- n)%Z else n, rest)
          end
      end
  | [] => None
  end.

(** The characters of a string literal after its opening quote. *)
Fixpoint parseChars (cs : list ascii) : option (string * list ascii) :=
  let cons (c : ascii) (r : option (string * list ascii)) :=
    match r with
    | Some (s, rest) => Some (String c s, rest)
    | None => None
    end in
  match cs with
  | [] => None
  | c :: rest =>
      if (code c =? 34)%N then Some (EmptyString, rest)
      else if (code c =? 92)%N then
        match rest with
        | "u"%char :: a :: b :: c' :: d :: rest' =>
            match hexVal a, hexVal b, hexVal c', hexVal d with
            | Some 0%N, Some 0%N, Some h, Some l =>
                cons (ascii_of_N (16 * h + l)) (parseChars rest')
            | _, _, _, _ => None
            end
        | e :: rest' =>
            let plain (x : ascii) := cons x (parseChars rest') in
            if (code e =? 34)%N then plain dquote
            else if (code e =? 92)%N then plain backslash
            else if (code e =? 47)%N then plain "/"%char
            else if (code e =? 98)%N then plain "008"%char
            else if (code e =? 102)%N then plain "012"%char
            else if (code e =? 110)%N then plain "010"%char
            else if (code e =? 114)%N then plain "013"%char
            else if (code e =? 116)%N then plain "009"%char
            else None
        | [] => None
        end
      else if (code c <? 32)%N then None
      else cons c (parseChars rest)
  end.

(** Assignment to a property while an object literal is read: a repeated
    key keeps its place and takes the later value. *)
Fixpoint setOwn (k : string) (v : Value) (props : list (string * Value))
  : list (string * Value) :=
  match props with
  | [] => [(k, v)]
  | (k', v') :: rest =>
      if String.eqb k k' then (k', v) :: rest else (k', v') :: setOwn k v rest
  end.

Fixpoint parseValue (fuel : nat) (cs : list ascii) : option (Value * list ascii) :=
  match fuel with
  | O => None
  | S fuel' =>
      match skipWs cs with
      | "n"%char :: "u"%char :: "l"%char :: "l"%char :: rest => Some (JNull, rest)
      | "t"%char :: "r"%char :: "u"%char :: "e"%char :: rest => Some (JBool true, rest)
      | "f"%char :: "a"%char :: "l"%char :: "s"%char :: "e"%char :: rest =>
          Some (JBool false, rest)
      | "["%char :: rest =>
          match skipWs rest with
          | "]"%char :: rest' => Some (JArr [], rest')
          | _ => parseElements fuel' rest []
          end
      | "{"%char :: rest =>
          match skipWs rest with
          | "}"%char :: rest' => Some (JObj [], rest')
          | _ => parseMembers fuel' rest []
          end
      | c :: rest =>
          if (code c =? 34)%N then
            match parseChars rest with
            | Some (s, rest') => Some (JStr s, rest')
            | None => None
            end
          else
            match parseNumber (c :: rest) with
            | Some (n, rest') => Some (JNum n, rest')
            | None => None
            end
      | [] => None
      end
  end
with parseElements (fuel : nat) (cs : list ascii) (acc : list Value)
  : option (Value * list ascii) :=
  match fuel with
  | O => None
  | S fuel' =>
      match parseValue fuel' cs with
      | Some (v, rest) =>
          match skipWs rest with
          | ","%char :: rest' => parseElements fuel' rest' (acc ++ [v])
          | "]"%char :: rest' => Some (JArr (acc ++ [v]), rest')
          | _ => None
          end
      | None => None
      end
  end
with parseMembers (fuel : nat) (cs : list ascii) (acc : list (string * Value))
  : option (Value * list ascii) :=
  match fuel with
  | O => None
  | S fuel' =>
      match skipWs cs with
      | c :: rest =>
          if (code c =? 34)%N then
            match parseChars rest with
            | Some (k, rest1) =>
                match skipWs rest1 with
                | ":"%char :: rest2 =>
                    match parseValue fuel' rest2 with
                    | Some (v, rest3) =>
                        match skipWs rest3 with
                        | ","%char :: rest4 => parseMembers fuel' rest4 (setOwn k v acc)
                        | "}"%char :: rest4 => Some (JObj (setOwn k v acc), rest4)
                        | _ => None
                        end
                    | None => None
                    end
                | _ => None
                end
            | None => None
            end
          else None
      | [] => None
      end
  end.

(** [None] stands for the [SyntaxError] that [json2.parse] throws. *)
Definition parse (text : string) : option Value :=
  let cs := list_ascii_of_string text in
  match parseValue (2 * List.length cs + 2) cs with
  | Some (v, rest) =>
      match skipWs rest with
      | [] => Some v
      | _ :: _ => None
      end
  | None => None
  end.

End Json.

(** ** The closure of [OutQueueManager] *)

Module OutQueue.
Import Js Chars Json.

(** The variables of the closure that are fixed once the constructor has
    run, and the one capability of the browser that later code depends on. *)
Record Config : Type := {
  queueName : string;
  usePost : bool;
  useLocalStorage : bool;
  bufferSize : Z;
  maxBytes : Z;
  path : string;
  (** whether [localStorage.setItem key value] is accepted (it throws when
      the quota is exceeded or the store is disabled) *)
  setItemAccepts : string -> string -> bool
}.

(** A request object created by [executeQueue]: an [XMLHttpRequest] with its
    timeout, or an [Image]. [numberToSend] is the count captured by the
    state handler. *)
Record Transfer : Type := {
  numberToSend : nat;
  inFlight : bool;
  timerArmed : bool
}.

Inductive NetCall : Type :=
| Post (url body : string)
| Get (src : string).

(** The variables of the closure that change, and the parts of the browser
    that the closure acts on. *)
Record State : Type := {
  executingQueue : bool;
  configCollectorUrl : option string;
  outQueue : list Value;
  localStorage : gmap string string;
  transfers : list Transfer;
  network : list NetCall;
  warnings : list string
}.

Definition set_executingQueue (b : bool) (s : State) : State :=
  {| executingQueue := b; configCollectorUrl := configCollectorUrl s;
     outQueue := outQueue s; localStorage := localStorage s;
     transfers := transfers s; network := network s; warnings := warnings s |}.

Definition set_configCollectorUrl (u : option string) (s : State) : State :=
  {| executingQueue := executingQueue s; configCollectorUrl := u;
     outQueue := outQueue s; localStorage := localStorage s;
     transfers := transfers s; network := network s; warnings := warnings s |}.

Definition set_outQueue (q : list Value) (s : State) : State :=
  {| executingQueue := executingQueue s; configCollectorUrl := configCollectorUrl s;
     outQueue := q; localStorage := localStorage s;
     transfers := transfers s; network := network s; warnings := warnings s |}.

Definition set_localStorage (m : gmap string string) (s : State) : State :=
  {| executingQueue := executingQueue s; configCollectorUrl := configCollectorUrl s;
     outQueue := outQueue s; localStorage := m;
     transfers := transfers s; network := network s; warnings := warnings s |}.

Definition set_transfers (ts : list Transfer) (s : State) : State :=
  {| executingQueue := executingQueue s; configCollectorUrl := configCollectorUrl s;
     outQueue := outQueue s; localStorage := localStorage s;
     transfers := ts; network := network s; warnings := warnings s |}.

Definition set_network (n : list NetCall) (s : State) : State :=
  {| executingQueue := executingQueue s; configCollectorUrl := configCollectorUrl s;
     outQueue := outQueue s; localStorage := localStorage s;
     transfers := transfers s; network := n; warnings := warnings s |}.

Definition set_warnings (w : list string) (s : State) : State :=
  {| executingQueue := executingQueue s; configCollectorUrl := configCollectorUrl s;
     outQueue := outQueue s; localStorage := localStorage s;
     transfers := transfers s; network := network s; warnings := w |}.

(** *** Helpers the file requires *)

(** Modelled from the spec: [helpers.attemptWriteLocalStorage] of
    [lib/helpers], which is not among the sources. It writes the value under
    the key and returns whether the write succeeded; a refused write leaves
    the store as it was. *)
Definition attemptWriteLocalStorage (cfg : Config) (key value : string) (s : State)
  : bool * State :=
  if setItemAccepts cfg key value
  then (true, set_localStorage (<[key := value]> (localStorage s)) s)
  else (false, s).

(** Modelled from the spec: [helpers.warn] of [lib/helpers], which is not
    among the sources; the warning is surfaced to the caller, here as one
    more line of the log. *)
Definition warn (message : string) (s : State) : State :=
  set_warnings (warnings s ++ [message]) s.

(** [lodash.mapValues] with a callback that may throw. *)
Fixpoint mapValues (f : Value -> Result string) (props : list (string * Value))
  : Result (list (string * Value)) :=
  match props with
  | [] => Ret []
  | (k, v) :: rest =>
      bind (f v) (fun sv =>
      bind (mapValues f rest) (fun rest' => Ret ((k, JStr sv) :: rest')))
  end.

(** *** [getQuerystring] *)

Definition lowPriorityKeys : list string := ["co"; "cx"].

Definition isLowPriority (key : string) : bool :=
  existsb (String.eqb key) lowPriorityKeys.

(** The first loop: every own key of the request that is not a low
    priority key, in enumeration order. *)
Fixpoint plainPairs (request props : list (string * Value))
    (querystring : string) (firstPair : bool) : Result string :=
  match props with
  | [] => Ret querystring
  | (key, _) :: rest =>
      match getOwn key request with
      | Some v =>
          if negb (isLowPriority key) then
            bind (ToString v) (fun sv =>
              let querystring := if firstPair then querystring else querystring +:+ "&" in
              plainPairs request rest
                (querystring +:+ encodeURIComponent key +:+ "=" +:+ encodeURIComponent sv)
                false)
          else plainPairs request rest querystring firstPair
      | None => plainPairs request rest querystring firstPair
      end
  end.

(** The second loop: the low priority keys that the request has. *)
Fixpoint contextPairs (request : list (string * Value)) (keys : list string)
    (querystring : string) : Result string :=
  match keys with
  | [] => Ret querystring
  | contextKey :: rest =>
      match getOwn contextKey request with
      | Some v =>
          bind (ToString v) (fun sv =>
            contextPairs request rest
              (querystring +:+ "&" +:+ contextKey +:+ "=" +:+ encodeURIComponent sv))
      | None => contextPairs request rest querystring
      end
  end.

(** Both loops call [request.hasOwnProperty]; a request with an own key of
    that name shadows the method with a value that cannot be called. *)
Definition getQuerystring (request : list (string * Value)) : Result string :=
  if hasOwnProperty request "hasOwnProperty" then Throw TypeError
  else
    bind (plainPairs request request "?" true) (fun querystring =>
    contextPairs request lowPriorityKeys querystring).

(** *** [getBody] *)

Record Body : Type := {
  cleanedRequest : list (string * Value);
  memorySize : Z
}.

(** The object that [getBody] returns, as a value of the queue. *)
Definition bodyValue (body : Body) : Value :=
  JObj [("cleanedRequest", JObj (cleanedRequest body));
        ("memorySize", JNum (memorySize body))].

Definition getBody (request : list (string * Value)) : Result Body :=
  bind (mapValues toString request) (fun cleaned =>
  Ret {| cleanedRequest := cleaned;
         memorySize := Z.of_nat (String.length (stringify (JObj cleaned))) |}).

(** *** [chooseHowManyToExecute] *)

(** The running byte count: a number, or [NaN] once an entry without a
    [memorySize] has been added. *)
Inductive Number : Type := Fin (n : Z) | NaN.

Definition plus (a : Number) (n : Z) : Number :=
  match a with Fin b => Fin (b + n) | NaN => NaN end.

(** [byteCount += m]. Adding a string, an array or an object turns the
    count into a string, which this embedding does not follow. *)
Definition addMemorySize (byteCount : Number) (m : option Value) : Result Number :=
  match m with
  | None => Ret NaN
  | Some (JNum n) => Ret (plus byteCount n)
  | Some JNull => Ret (plus byteCount 0)
  | Some (JBool b) => Ret (plus byteCount (if b then 1 else 0))
  | Some (JStr _) | Some (JArr _) | Some (JObj _) => Beyond
  end.

(** [byteCount >= maxBytes] *)
Definition reaches (byteCount : Number) (maxBytes : Z) : bool :=
  match byteCount with Fin b => (maxBytes <=? b)%Z | NaN => false end.

(** The loop of [chooseHowManyToExecute]; [rest] is the part of [q] from
    index [numberToSend] on. *)
Fixpoint chooseLoop (maxBytes : Z) (rest : list Value) (numberToSend : nat)
    (byteCount : Number) : Result nat :=
  match rest with
  | [] => Ret numberToSend
  | x :: rest' =>
      bind (member x "memorySize") (fun m =>
      bind (addMemorySize byteCount m) (fun byteCount =>
      if reaches byteCount maxBytes then Ret numberToSend
      else chooseLoop maxBytes rest' (S numberToSend) byteCount))
  end.

Definition chooseHowManyToExecute (maxBytes : Z) (q : list Value) : Result nat :=
  chooseLoop maxBytes q 0 (Fin 0).

(** *** [executeQueue] *)

Definition noCollector : string := "No Snowplow collector configured, cannot track".

Definition payloadSchema : string :=
  "iglu:com.snowplowanalytics.snowplow/payload_data/jsonschema/1-0-2".

(** The failsafe loop removes the head while it is neither a string nor an
    object by [typeof]. *)
Definition failsafe (v : Value) : bool :=
  match typeof v with
  | TString | TObject => false
  | TNumber | TBoolean => true
  end.

Fixpoint scrub (q : list Value) : list Value :=
  match q with
  | v :: rest => if failsafe v then scrub rest else q
  | [] => []
  end.

(** [lodash.map(outQueue.slice(0, numberToSend), x => x.cleanedRequest)];
    an [undefined] element is serialized as [null]. *)
Fixpoint cleanedRequests (entries : list Value) : Result (list Value) :=
  match entries with
  | [] => Ret []
  | x :: rest =>
      bind (member x "cleanedRequest") (fun c =>
      bind (cleanedRequests rest) (fun cs =>
      Ret (match c with Some v => v | None => JNull end :: cs)))
  end.

Definition addTransfer (t : Transfer) (s : State) : State :=
  set_transfers (transfers s ++ [t]) s.

Definition send (call : NetCall) (s : State) : State :=
  set_network (network s ++ [call]) s.

Definition executeQueue (cfg : Config) (s : State) : Result unit * State :=
  let s := set_outQueue (scrub (outQueue s)) s in
  match outQueue s with
  | [] => (Ret tt, set_executingQueue false s)
  | nextRequest :: _ =>
      match configCollectorUrl s with
      | None => (Throw (Thrown noCollector), s)
      | Some url =>
          let s := set_executingQueue true s in
          if usePost cfg then
            (* the request is opened and its timeout armed before the batch
               is chosen *)
            match chooseHowManyToExecute (maxBytes cfg) (outQueue s) with
            | Ret n =>
                match cleanedRequests (firstn n (outQueue s)) with
                | Ret batch =>
                    let batchRequest :=
                      JObj [("schema", JStr payloadSchema); ("data", JArr batch)] in
                    if (0 <? List.length batch)%nat then
                      (Ret tt,
                       send (Post url (stringify batchRequest))
                         (addTransfer {| numberToSend := n; inFlight := true;
                                         timerArmed := true |} s))
                    else
                      (Ret tt,
                       addTransfer {| numberToSend := n; inFlight := false;
                                      timerArmed := true |} s)
                | Throw e =>
                    (Throw e,
                     addTransfer {| numberToSend := n; inFlight := false;
                                    timerArmed := true |} s)
                | Beyond => (Beyond, s)
                end
            | Throw e =>
                (Throw e,
                 addTransfer {| numberToSend := 0; inFlight := false;
                                timerArmed := true |} s)
            | Beyond => (Beyond, s)
            end
          else
            match ToString nextRequest with
            | Ret q =>
                (Ret tt,
                 send (Get (url +:+ q))
                   (addTransfer {| numberToSend := 1; inFlight := true;
                                   timerArmed := false |} s))
            | Throw e => (Throw e, s)
            | Beyond => (Beyond, s)
            end
      end
  end.

(** *** [enqueueRequest] *)

Definition push (v : Value) (s : State) : State :=
  set_outQueue (outQueue s ++ [v]) s.

Definition sizeLimitWarning (memorySize maxBytes : Z) : string :=
  "Event of size " +:+ Number_toString memorySize
  +:+ " is too long - the maximum size is " +:+ Number_toString maxBytes.

(** Lines 160 to 168: the collector URL, the write and the trigger. *)
Definition saveAndTrigger (cfg : Config) (url : string) (s : State)
  : Result unit * State :=
  let s := set_configCollectorUrl (Some (url +:+ path cfg)) s in
  let '(savedToLocalStorage, s) :=
    if useLocalStorage cfg
    then attemptWriteLocalStorage cfg (queueName cfg) (stringify (JArr (outQueue s))) s
    else (false, s) in
  if negb (executingQueue s)
     && (negb savedToLocalStorage
         || (bufferSize cfg <=? Z.of_nat (List.length (outQueue s)))%Z)
  then executeQueue cfg s
  else (Ret tt, s).

Definition enqueueRequest (cfg : Config) (request : list (string * Value))
    (url : string) (s : State) : Result unit * State :=
  if usePost cfg then
    match getBody request with
    | Ret body =>
        if (maxBytes cfg <=? memorySize body)%Z then
          (Ret tt, warn (sizeLimitWarning (memorySize body) (maxBytes cfg)) s)
        else
          let s := push (bodyValue body) s in
          (* line 159 evaluates [getBody(request)] and pushes once more *)
          match getBody request with
          | Ret body' => saveAndTrigger cfg url (push (bodyValue body') s)
          | Throw e => (Throw e, s)
          | Beyond => (Beyond, s)
          end
    | Throw e => (Throw e, s)
    | Beyond => (Beyond, s)
    end
  else
    match getQuerystring request with
    | Ret q =>
        let s := push (JStr q) s in
        (* line 159 evaluates [getQuerystring(request)] and pushes once more *)
        match getQuerystring request with
        | Ret q' => saveAndTrigger cfg url (push (JStr q') s)
        | Throw e => (Throw e, s)
        | Beyond => (Beyond, s)
        end
    | Throw e => (Throw e, s)
    | Beyond => (Beyond, s)
    end.

(** *** The callbacks *)

Definition setTransfer (i : nat) (t : Transfer) (s : State) : State :=
  set_transfers (<[i := t]> (transfers s)) s.

Definition landed (t : Transfer) : Transfer :=
  {| numberToSend := numberToSend t; inFlight := false; timerArmed := timerArmed t |}.

Definition disarmed (t : Transfer) : Transfer :=
  {| numberToSend := numberToSend t; inFlight := inFlight t; timerArmed := false |}.

(** [outQueue.shift()] repeated [n] times; on an empty array it does
    nothing. *)
Definition shiftN (n : nat) (s : State) : State :=
  set_outQueue (skipn n (outQueue s)) s.

Definition persist (cfg : Config) (s : State) : State :=
  if useLocalStorage cfg
  then snd (attemptWriteLocalStorage cfg (queueName cfg) (stringify (JArr (outQueue s))) s)
  else s.

(** [xhr.onreadystatechange] of transfer [i] when the request reaches
    [readyState] 4 with the given status. *)
Definition onreadystatechange (cfg : Config) (i : nat) (t : Transfer) (status : Z)
    (s : State) : Result unit * State :=
  let s := setTransfer i (landed t) s in
  if ((200 <=? status) && (status <? 400))%Z then
    let s := shiftN (numberToSend t) s in
    let s := persist cfg s in
    let s := setTransfer i (disarmed (landed t)) s in
    executeQueue cfg s
  else if (400 <=? status)%Z then
    let s := setTransfer i (disarmed (landed t)) s in
    (Ret tt, set_executingQueue false s)
  else (Ret tt, s).

(** The function given to [setTimeout]: [xhr.abort()] ends the request (the
    state handler then sees status 0 and does nothing) and the flag is
    cleared. *)
Definition xhrTimeout (i : nat) (t : Transfer) (s : State) : Result unit * State :=
  let s := setTransfer i (disarmed (landed t)) s in
  (Ret tt, set_executingQueue false s).

(** [image.onload] *)
Definition onload (cfg : Config) (i : nat) (t : Transfer) (s : State)
  : Result unit * State :=
  let s := setTransfer i (landed t) s in
  let s := shiftN 1 s in
  let s := persist cfg s in
  executeQueue cfg s.

(** [image.onerror] *)
Definition onerror (i : nat) (t : Transfer) (s : State) : Result unit * State :=
  let s := setTransfer i (landed t) s in
  (Ret tt, set_executingQueue false s).

(** The function pushed to [mutSnowplowState.bufferFlushers]. *)
Definition bufferFlusher (cfg : Config) (s : State) : Result unit * State :=
  if negb (executingQueue s) then executeQueue cfg s else (Ret tt, s).

Definition flusherRegistered (cfg : Config) : bool :=
  usePost cfg && (1 <? bufferSize cfg)%Z.

(** *** The transition system *)

Inductive Event : Type :=
| EnqueueRequest (request : list (string * Value)) (url : string)
| ExecuteQueue
| BufferFlush
| ReadyState4 (i : nat) (status : Z)
| Timeout (i : nat)
| ImageLoad (i : nat)
| ImageError (i : nat).

(** [None] when the event cannot happen in the state: a callback fires
    only for a request that is in flight, a timeout only while armed, the
    flusher only if the constructor registered it. *)
Definition handle (cfg : Config) (ev : Event) (s : State)
  : option (Result unit * State) :=
  match ev with
  | EnqueueRequest request url => Some (enqueueRequest cfg request url s)
  | ExecuteQueue => Some (executeQueue cfg s)
  | BufferFlush =>
      if flusherRegistered cfg then Some (bufferFlusher cfg s) else None
  | ReadyState4 i status =>
      match transfers s !! i with
      | Some t =>
          if usePost cfg && inFlight t then Some (onreadystatechange cfg i t status s)
          else None
      | None => None
      end
  | Timeout i =>
      match transfers s !! i with
      | Some t =>
          if usePost cfg && timerArmed t then Some (xhrTimeout i t s) else None
      | None => None
      end
  | ImageLoad i =>
      match transfers s !! i with
      | Some t =>
          if negb (usePost cfg) && inFlight t then Some (onload cfg i t s) else None
      | None => None
      end
  | ImageError i =>
      match transfers s !! i with
      | Some t =>
          if negb (usePost cfg) && inFlight t then Some (onerror i t s) else None
      | None => None
      end
  end.

(** Running a list of events; the state after an event that throws is the
    state the exception left behind. *)
Fixpoint run (cfg : Config) (evs : list Event) (s : State) : option State :=
  match evs with
  | [] => Some s
  | ev :: rest =>
      match handle cfg ev s with
      | Some (Beyond, _) => None
      | Some (_, s') => run cfg rest s'
      | None => None
      end
  end.

(** *** The constructor *)

Record Browser : Type := {
  (** [window.XMLHttpRequest && 'withCredentials' in new XMLHttpRequest()] *)
  corsXhr : bool;
  (** [detectors.localStorageAccessible()] *)
  localStorageAccessible : bool;
  storageAccepts : string -> string -> bool
}.

(** [mutSnowplowState]: the queues and flushers registered so far, each
    named by the key of its queue. *)
Record Registry : Type := {
  outQueues : list string;
  bufferFlushers : list string
}.

Definition load (store : gmap string string) (name : string) : list Value :=
  let parsed :=
    match store !! name with
    | Some text => parse text
    | None => Some JNull
    end in
  match parsed with
  | Some (JArr entries) => entries
  | _ => []
  end.

Definition OutQueueManager (browser : Browser) (store : gmap string string)
    (functionName namespace : string) (mutSnowplowState : Registry)
    (useLocalStorage usePost : bool) (bufferSize : Z)
  : Config * State * Registry :=
  let usePost := usePost && corsXhr browser in
  let path := if usePost then "/com.snowplowanalytics.snowplow/tp2" else "/i" in
  let bufferSize :=
    if localStorageAccessible browser && useLocalStorage && usePost
       && negb (bufferSize =? 0)%Z
    then bufferSize else 1%Z in
  let queueName :=
    join "_" ["snowplowOutQueue"; functionName; namespace;
              if usePost then "post" else "get"] in
  let outQueue := if useLocalStorage then load store queueName else [] in
  let cfg :=
    {| queueName := queueName; usePost := usePost; useLocalStorage := useLocalStorage;
       bufferSize := bufferSize; maxBytes := 40000; path := path;
       setItemAccepts := storageAccepts browser |} in
  let s :=
    {| executingQueue := false; configCollectorUrl := None; outQueue := outQueue;
       localStorage := store; transfers := []; network := []; warnings := [] |} in
  let registry :=
    {| outQueues := outQueues mutSnowplowState ++ [queueName];
       bufferFlushers :=
         if usePost && (1 <? bufferSize)%Z
         then bufferFlushers mutSnowplowState ++ [queueName]
         else bufferFlushers mutSnowplowState |} in
  (cfg, s, registry).

End OutQueue.

(** ** Notions and scenarios used to state the properties *)

Module Notions.
Import Js Chars Json OutQueue.
Local Open Scope list_scope.

(** *** Sizes *)

Fixpoint total (sizes : list Z) : Z :=
  match sizes with
  | [] => 0
  | n :: rest => n + total rest
  end.

Definition sizes (bodies : list Body) : list Z := map memorySize bodies.

(** The [memorySize] that [getBody] computes for a request, when it
    returns. *)
Definition encodedSize (request : list (string * Value)) : option Z :=
  match getBody request with
  | Ret body => Some (memorySize body)
  | _ => None
  end.

Fixpoint allAscii (s : string) : bool :=
  match s with
  | EmptyString => true
  | String c rest => (code c <? 128)%N && allAscii rest
  end.

(** *** The store and the states inside a callback *)

(** The store after [attemptWriteLocalStorage] has been asked to save the
    queue [q]: rewritten under the queue's key when the store is in use and
    accepts the write, unchanged otherwise. *)
Definition storeAfterSave (cfg : Config) (q : list Value) (store : gmap string string)
  : gmap string string :=
  if useLocalStorage cfg && setItemAccepts cfg (queueName cfg) (stringify (JArr q))
  then <[queueName cfg := stringify (JArr q)]> store
  else store.

(** The state in which the success branch of the state handler calls
    [executeQueue] again. *)
Definition afterAccepted (cfg : Config) (i : nat) (t : Transfer) (s : State) : State :=
  setTransfer i (disarmed (landed t))
    (persist cfg (shiftN (numberToSend t) (setTransfer i (landed t) s))).

(** The state in which the load handler calls [executeQueue] again. *)
Definition afterLoaded (cfg : Config) (i : nat) (t : Transfer) (s : State) : State :=
  persist cfg (shiftN 1 (setTransfer i (landed t) s)).

(** *** Requests in flight *)

Fixpoint countIf {A : Type} (f : A -> bool) (l : list A) : nat :=
  match l with
  | [] => 0
  | x :: rest => Nat.b2n (f x) + countIf f rest
  end.

(** A request is live while it is in flight or its timeout is armed. *)
Definition live (t : Transfer) : bool := inFlight t || timerArmed t.

Definition inFlightCount (s : State) : nat := countIf inFlight (transfers s).

Definition liveCount (s : State) : nat := countIf live (transfers s).

(** The count captured by a request in flight is within the queue. *)
Definition selectedWithinQueue (s : State) : Prop :=
  Forall (fun t => inFlight t = true -> (numberToSend t <= length (outQueue s))%nat)
    (transfers s).

(** The invariant of the closure when the queue is only drained through its
    guarded triggers and its own callbacks. *)
Definition SingleDrain (s : State) : Prop :=
  liveCount s = 0%nat
  \/ (liveCount s = 1%nat /\ executingQueue s = true /\ selectedWithinQueue s).

(** Only an [XMLHttpRequest] has a timeout. *)
Definition TimersArePost (cfg : Config) (s : State) : Prop :=
  Forall (fun t => timerArmed t = true -> usePost cfg = true) (transfers s).

(** In POST mode a request in flight has its timeout armed. *)
Definition FlightsArmed (cfg : Config) (s : State) : Prop :=
  usePost cfg = true ->
  Forall (fun t => inFlight t = true -> timerArmed t = true) (transfers s).

(** Every event but a direct call of the exported [executeQueue]. *)
Definition guarded (ev : Event) : bool :=
  match ev with ExecuteQueue => false | _ => true end.

(** *** Browsers, trackers and events used as examples *)

Fixpoint repeatChar (c : ascii) (n : nat) : string :=
  match n with
  | O => EmptyString
  | S n' => String c (repeatChar c n')
  end.

Definition anyBrowser : Browser :=
  {| corsXhr := true; localStorageAccessible := true;
     storageAccepts := fun _ _ => true |}.

(** A browser whose store refuses every write (its quota is used up). *)
Definition fullBrowser : Browser :=
  {| corsXhr := true; localStorageAccessible := true;
     storageAccepts := fun _ _ => false |}.

Definition emptyRegistry : Registry := {| outQueues := []; bufferFlushers := [] |}.

(** A tracker [sp] with namespace [cf], sending by POST with a buffer of
    ten events, on an empty store. *)
Definition postManager : Config * State :=
  fst (OutQueueManager anyBrowser ∅ "sp" "cf" emptyRegistry true true 10).

(** The same tracker sending by GET. *)
Definition getManager : Config * State :=
  fst (OutQueueManager anyBrowser ∅ "sp" "cf" emptyRegistry true false 10).

(** The GET tracker on a store that refuses writes. *)
Definition fullStoreManager : Config * State :=
  fst (OutQueueManager fullBrowser ∅ "sp" "cf" emptyRegistry true false 10).

Definition pageView : list (string * Value) :=
  [("e", JStr "pv"); ("p", JStr "web"); ("tv", JStr "js-2.3.0")].

Definition mixedEvent : list (string * Value) :=
  [("e", JStr "se"); ("se_va", JNum 42); ("ok", JBool true)].

Definition hugeEvent : list (string * Value) :=
  [("e", JStr "pv"); ("url", JStr (repeatChar "a" (200 * 200)))].

Definition hugeQuery : string := "?e=pv&url=" +:+ repeatChar "a" (200 * 200).

(** The Latin small letter e with acute, U+00E9. *)
Definition eAcute : ascii := "233"%char.

Definition cafe : list (string * Value) := [("p", JStr (String "c" (str1 eAcute)))].

(** Five batch entries of size 10000. *)
Definition tenThousands : list Body :=
  map (fun _ => {| cleanedRequest := []; memorySize := 10000 |}) (seq 0 5).

(** The POST tracker after one event; with a buffer of ten no drain has
    started. *)
Definition afterOneEvent : State :=
  snd (enqueueRequest (fst postManager) pageView "http://c" (snd postManager)).

(** A new instance for the same tracker on the store that the first one
    left. *)
Definition secondInstance : Config * State :=
  fst (OutQueueManager anyBrowser (localStorage afterOneEvent) "sp" "cf" emptyRegistry
         true true 10).

(** The POST tracker after one event and a flush: one request in flight. *)
Definition postDraining : State :=
  snd (bufferFlusher (fst postManager) afterOneEvent).

(** The GET tracker after one event: the image request is in flight. *)
Definition getDraining : State :=
  snd (enqueueRequest (fst getManager) pageView "http://c" (snd getManager)).

Definition xhrOfTwo : Transfer :=
  {| numberToSend := 2; inFlight := true; timerArmed := true |}.

Definition imageOfOne : Transfer :=
  {| numberToSend := 1; inFlight := true; timerArmed := false |}.

(** One event, a flush that starts the drain, a second flush and a second
    event while the request is in flight, then its acceptance. *)
Definition busyTrace : list Event :=
  [EnqueueRequest pageView "http://c"; BufferFlush; BufferFlush;
   EnqueueRequest pageView "http://c"; ReadyState4 0 200].

Definition afterBusyTrace : State :=
  match run (fst postManager) busyTrace (snd postManager) with
  | Some s => s
  | None => snd postManager
  end.

(** *** Stores left by an earlier page *)

(** A store that holds one GET entry for the tracker [sp], namespace [cf]. *)
Definition storedGetQueue : gmap string string :=
  {[ "snowplowOutQueue_sp_cf_get" := stringify (JArr [JStr "?e=pv"]) ]}.

Definition reloadedGetManager : Config * State :=
  fst (OutQueueManager anyBrowser storedGetQueue "sp" "cf" emptyRegistry true false 10).

(** A store that holds a queue whose only entry is the number 7. *)
Definition storedNumber : gmap string string :=
  {[ "snowplowOutQueue_sp_cf_get" := stringify (JArr [JNum 7]) ]}.

Definition numberManager : Config * State :=
  fst (OutQueueManager anyBrowser storedNumber "sp" "cf" emptyRegistry true false 10).

Definition storedBody : Value :=
  bodyValue {| cleanedRequest := [("e", JStr "pv")]; memorySize := 10 |}.

(** Stores that hold [null] followed by one valid entry. *)
Definition storedNullPost : gmap string string :=
  {[ "snowplowOutQueue_sp_cf_post" := stringify (JArr [JNull; storedBody]) ]}.

Definition storedNullGet : gmap string string :=
  {[ "snowplowOutQueue_sp_cf_get" := stringify (JArr [JNull; JStr "?e=pv"]) ]}.

Definition nullPostManager : Config * State :=
  fst (OutQueueManager anyBrowser storedNullPost "sp" "cf" emptyRegistry true true 1).

Definition nullGetManager : Config * State :=
  fst (OutQueueManager anyBrowser storedNullGet "sp" "cf" emptyRegistry true false 1).

(** The first drain, started by the first event of the new page. *)
Definition nullPostDrain : Result unit * State :=
  enqueueRequest (fst nullPostManager) pageView "http://c" (snd nullPostManager).

Definition nullGetDrain : Result unit * State :=
  enqueueRequest (fst nullGetManager) pageView "http://c" (snd nullGetManager).

(** *** The layout of a query string *)

Fixpoint allChars (p : ascii -> bool) (s : string) : bool :=
  match s with
  | EmptyString => true
  | String c rest => p c && allChars p rest
  end.

(** The characters that [encodeURIComponent] can produce: the unreserved
    ones and the percent sign. *)
Definition uriSafe (c : ascii) : bool := uriUnreserved c || (code c =? 37)%N.

(** The string form of a value that has one. *)
Definition stringOf (v : Value) : string :=
  match ToString v with
  | Ret sv => sv
  | _ => EmptyString
  end.

Definition plainPair (kv : string * Value) : string :=
  encodeURIComponent (fst kv) +:+ "=" +:+ encodeURIComponent (stringOf (snd kv)).

Definition plainFields (request : list (string * Value)) : list (string * Value) :=
  List.filter (fun kv => negb (isLowPriority (fst kv))) request.

Definition contextPair (request : list (string * Value)) (key : string) : string :=
  match getOwn key request with
  | Some v => "&" +:+ key +:+ "=" +:+ encodeURIComponent (stringOf v)
  | None => EmptyString
  end.

(** A request that [getQuerystring] can encode: distinct keys, none of them
    [hasOwnProperty], every value with a string form. *)
Definition encodable (request : list (string * Value)) : Prop :=
  NoDup (map fst request)
  /\ hasOwnProperty request "hasOwnProperty" = false
  /\ Forall (fun kv => exists sv, ToString (snd kv) = Ret sv) request.

Definition contextFirst : list (string * Value) :=
  [("co", JStr "{}"); ("e", JStr "pv"); ("cx", JStr "e30="); ("p", JStr "a b&c")].

(** *** Constructed managers and the trigger of a drain *)

(** The configuration and the first state that the constructor gives. *)
Definition constructed (browser : Browser) (store : gmap string string)
    (functionName namespace : string) (registry : Registry)
    (useLocalStorage usePost : bool) (bufferSize : Z) : Config * State :=
  fst (OutQueueManager browser store functionName namespace registry
         useLocalStorage usePost bufferSize).

(** [entry] is what [enqueueRequest] appends for [request]: the body, when
    it is below the limit, or the query string. *)
Definition accepted (cfg : Config) (request : list (string * Value)) (entry : Value)
  : Prop :=
  if usePost cfg
  then exists body, getBody request = Ret body
                    /\ (memorySize body < maxBytes cfg)%Z /\ entry = bodyValue body
  else exists q, getQuerystring request = Ret q /\ entry = JStr q.

(** Whether line 163 reports the queue [q] as saved. *)
Definition saved (cfg : Config) (q : list Value) : bool :=
  useLocalStorage cfg && setItemAccepts cfg (queueName cfg) (stringify (JArr q)).

(** The test of line 166 for an idle manager whose queue has become [q]. *)
Definition triggers (cfg : Config) (q : list Value) : bool :=
  negb (saved cfg q) || (bufferSize cfg <=? Z.of_nat (length q))%Z.

(** *** What [executeQueue] sends *)

(** The body of a POST request for a batch. *)
Definition envelope (batch : list Value) : string :=
  stringify (JObj [("schema", JStr payloadSchema); ("data", JArr batch)]).

Definition cleanedOf (bodies : list Body) : list Value :=
  map (fun b => JObj (cleanedRequest b)) bodies.

(** An entry whose [memorySize] can be read and added as a number: it is
    not [null], and the property is absent, a number, a boolean or [null]. *)
Definition addable (v : Value) : bool :=
  match member v "memorySize" with
  | Ret None | Ret (Some (JNum _)) | Ret (Some (JBool _)) | Ret (Some JNull) => true
  | _ => false
  end.

(** An entry without a [memorySize]: a string, an array, a number, or an
    object that lacks the property. *)
Definition unsized (v : Value) : bool :=
  match member v "memorySize" with
  | Ret None => true
  | _ => false
  end.

(** A store that holds one POST entry of the size limit itself. *)
Definition oversizeBody : Body := {| cleanedRequest := [("e", JStr "pv")]; memorySize := 40000 |}.

Definition storedOversize : gmap string string :=
  {[ "snowplowOutQueue_sp_cf_post"
     := stringify (JArr [bodyValue oversizeBody; storedBody]) ]}.

Definition oversizeManager : Config * State :=
  fst (OutQueueManager anyBrowser storedOversize "sp" "cf" emptyRegistry true true 10).

(** The manager above once a (too long) event has told it the collector. *)
Definition oversizeReady : State :=
  set_configCollectorUrl (Some "http://c/com.snowplowanalytics.snowplow/tp2")
    (snd oversizeManager).

(** A POST queue whose head is a string, followed by two large entries. *)
Definition stringHeaded : list Value :=
  [JStr "?e=pv";
   bodyValue {| cleanedRequest := []; memorySize := 30000 |};
   bodyValue {| cleanedRequest := []; memorySize := 30000 |}].

(** *** Induction on values *)

Section ValueInduction.

Variable P : Value -> Prop.
Hypothesis onNull : P JNull.
Hypothesis onBool : forall b, P (JBool b).
Hypothesis onNum : forall n, P (JNum n).
Hypothesis onStr : forall str, P (JStr str).
Hypothesis onArr : forall elems, Forall P elems -> P (JArr elems).
Hypothesis onObj : forall props, Forall (fun kv => P (snd kv)) props -> P (JObj props).

Fixpoint Value_induction (v : Value) : P v :=
  match v with
  | JNull => onNull
  | JBool b => onBool b
  | JNum n => onNum n
  | JStr str => onStr str
  | JArr elems =>
      onArr elems
        ((fix all (l : list Value) : Forall P l :=
            match l with
            | [] => @List.Forall_nil _ P
            | x :: rest => @List.Forall_cons _ P x rest (Value_induction x) (all rest)
            end) elems)
  | JObj props =>
      onObj props
        ((fix all (l : list (string * Value)) : Forall (fun kv => P (snd kv)) l :=
            match l with
            | [] => @List.Forall_nil _ _
            | kv :: rest =>
                @List.Forall_cons _ _ kv rest (Value_induction (snd kv)) (all rest)
            end) props)
  end.

End ValueInduction.

(** *** The queue and the store along a run *)

(** [q'] is [q] without some entries at its head. *)
Definition suffixOf (q q' : list Value) : Prop := exists k : nat, q' = skipn k q.

(** The entries that [enqueueRequest] appends for a request: two copies of
    the body or of the query string, or nothing when the event is refused
    or has no string form. *)
Definition entries (cfg : Config) (request : list (string * Value)) : list Value :=
  if usePost cfg then
    match getBody request with
    | Ret body =>
        if (maxBytes cfg <=? memorySize body)%Z then []
        else [bodyValue body; bodyValue body]
    | _ => []
    end
  else
    match getQuerystring request with
    | Ret q => [JStr q; JStr q]
    | _ => []
    end.

Definition entriesOf (cfg : Config) (ev : Event) : list Value :=
  match ev with
  | EnqueueRequest request _ => entries cfg request
  | _ => []
  end.

(** Everything the events of a run append, in the order of the events. *)
Definition appended (cfg : Config) (evs : list Event) : list Value :=
  concat (map (entriesOf cfg) evs).

(** The store [m'] differs from [m] at most under the key of the queue, and
    not at all when the store is not in use. *)
Definition ownKeyOnly (cfg : Config) (m m' : gmap string string) : Prop :=
  (useLocalStorage cfg = false -> m' = m)
  /\ (forall key, key <> queueName cfg -> m' !! key = m !! key).

(** A store with a value of another script, and a run of the POST tracker
    on it. *)
Definition sharedStore : gmap string string := {[ "theme" := "dark" ]}.

Definition sharedManager : Config * State :=
  fst (OutQueueManager anyBrowser sharedStore "sp" "cf" emptyRegistry true true 10).

Definition afterSharedRun : State :=
  match run (fst sharedManager) busyTrace (snd sharedManager) with
  | Some s => s
  | None => snd sharedManager
  end.

(** *** What a request in flight carries *)

(** [call] is the request that [executeQueue] makes for the entries [sent]:
    in POST mode the envelope of their cleaned requests, in GET mode the
    collector URL followed by the one entry. *)
Definition carries (cfg : Config) (call : NetCall) (sent : list Value) : Prop :=
  if usePost cfg
  then exists url batch,
         cleanedRequests sent = Ret batch /\ call = Post url (envelope batch)
  else exists url head qs,
         sent = [head] /\ ToString head = Ret qs /\ call = Get (url +:+ qs).

(** The entries that the state handler of a request in flight will remove
    are the entries that the latest request carries. *)
Definition SentIsHead (cfg : Config) (s : State) : Prop :=
  Forall (fun t => inFlight t = true ->
            exists call, last (network s) = Some call
                         /\ carries cfg call (firstn (numberToSend t) (outQueue s)))
    (transfers s).

Definition drainingTrace : list Event :=
  [EnqueueRequest pageView "http://c"; BufferFlush;
   EnqueueRequest mixedEvent "http://c"].

Definition afterDrainingTrace : State :=
  match run (fst postManager) drainingTrace (snd postManager) with
  | Some s => s
  | None => snd postManager
  end.

(** *** Drains *)

(** The load events of [n] images, the first of them request [first]. *)
Fixpoint loads (first n : nat) : list Event :=
  match n with
  | O => []
  | S n' => ImageLoad first :: loads (S first) n'
  end.

(** A GET manager whose queue came from the store, once the collector URL
    is known. *)
Definition reloadedReady : State :=
  set_configCollectorUrl (Some "http://c/i") (snd reloadedGetManager).

(** The acceptance, with the given status, of [n] POST requests, the first
    of them request [first]. *)
Fixpoint responses (status : Z) (first n : nat) : list Event :=
  match n with
  | O => []
  | S n' => ReadyState4 first status :: responses status (S first) n'
  end.

(** *** Two requests for one batch *)

(** One event, the flush that starts the drain, a direct call of the
    exported [executeQueue] while request 0 is in flight, then the
    acceptance of request 0. *)
Definition doubleDrainTrace : list Event :=
  [EnqueueRequest pageView "http://c"; BufferFlush; ExecuteQueue; ReadyState4 0 200].

Definition afterDoubleDrain : State :=
  match run (fst postManager) doubleDrainTrace (snd postManager) with
  | Some s => s
  | None => snd postManager
  end.

(** A second event arrives while request 1 is still in flight. *)
Definition afterLateEvent : State :=
  snd (enqueueRequest (fst postManager) mixedEvent "http://c" afterDoubleDrain).

(** Request 1 is accepted. *)
Definition afterSecondAcceptance : State :=
  match handle (fst postManager) (ReadyState4 1 200) afterLateEvent with
  | Some (_, s) => s
  | None => afterLateEvent
  end.

End Notions.

(** ** Properties *)

Module Props.
Import Js Chars Json OutQueue Notions.
Local Open Scope list_scope.

(** *** The batch chosen by [chooseHowManyToExecute] *)

Lemma member_bodyValue_memorySize (b : Body) :
  member (bodyValue b) "memorySize" = Ret (Some (JNum (memorySize b))).
Proof. reflexivity. Qed.

Lemma total_firstn_S (k : nat) (n : Z) (rest : list Z) :
  total (firstn (S k) (n :: rest)) = (n + total (firstn k rest))%Z.
Proof. reflexivity. Qed.

Lemma chooseLoop_bodies (maxBytes : Z) (bodies : list Body) :
  forall (i : nat) (acc : Z),
  exists m : nat,
    chooseLoop maxBytes (map bodyValue bodies) i (Fin acc) = Ret (i + m)%nat
    /\ (m <= length bodies)%nat
    /\ (forall k, (1 <= k <= m)%nat ->
          (acc + total (firstn k (sizes bodies)) < maxBytes)%Z)
    /\ ((m < length bodies)%nat ->
          (maxBytes <= acc + total (firstn (S m) (sizes bodies)))%Z).
Proof.
  induction bodies as [|b rest IH]; intros i acc.
  - exists 0%nat. cbn. rewrite Nat.add_0_r.
    repeat split; intros; lia.
  - cbn [map chooseLoop]. rewrite member_bodyValue_memorySize.
    cbn [bind addMemorySize plus reaches].
    change (sizes (b :: rest)) with (memorySize b :: sizes rest).
    destruct (Z.leb_spec maxBytes (acc + memorySize b)) as [Hge|Hlt].
    + exists 0%nat. rewrite Nat.add_0_r. rewrite total_firstn_S.
      rewrite firstn_O. cbn [length total].
      repeat split; intros; lia.
    + destruct (IH (S i) (acc + memorySize b)%Z) as (m & Heq & Hlen & Hbelow & Hstop).
      exists (S m). rewrite Heq. cbn [length].
      split; [f_equal; lia|]. split; [lia|]. split.
      * intros k Hk. destruct k as [|k]; [lia|]. rewrite total_firstn_S.
        destruct k as [|k].
        -- rewrite firstn_O. cbn [total]. lia.
        -- specialize (Hbelow (S k) ltac:(lia)). lia.
      * intros Hm. rewrite total_firstn_S. specialize (Hstop ltac:(lia)). lia.
Qed.

(** C4. For every queue of batch entries and every byte budget,
    [chooseHowManyToExecute] returns a count [n] of leading entries such that
    every running total over the first [k <= n] entries stays below the
    budget and, when an entry is left, the total including entry [n + 1]
    reaches or exceeds the budget; for sizes five times 10000 and a budget
    of 25000 the count is 2. *)
Theorem chooseHowManyToExecute_greedy (maxBytes : Z) (bodies : list Body) :
  (exists n : nat,
     chooseHowManyToExecute maxBytes (map bodyValue bodies) = Ret n
     /\ (n <= length bodies)%nat
     /\ (forall k, (1 <= k <= n)%nat -> (total (firstn k (sizes bodies)) < maxBytes)%Z)
     /\ ((n < length bodies)%nat ->
           (maxBytes <= total (firstn (S n) (sizes bodies)))%Z))
  /\ sizes tenThousands = [10000; 10000; 10000; 10000; 10000]%Z
  /\ chooseHowManyToExecute 25000 (map bodyValue tenThousands) = Ret 2%nat.
Proof.
  split; [|split; reflexivity].
  destruct (chooseLoop_bodies maxBytes bodies 0 0) as (m & Heq & Hlen & Hbelow & Hstop).
  exists m. unfold chooseHowManyToExecute. rewrite Heq. auto.
Qed.

(** *** Facts about [executeQueue] used below *)

Lemma executeQueue_localStorage (cfg : Config) (s : State) :
  localStorage (snd (executeQueue cfg s)) = localStorage s.
Proof. unfold executeQueue. repeat case_match; reflexivity. Qed.

Lemma executeQueue_warnings (cfg : Config) (s : State) :
  warnings (snd (executeQueue cfg s)) = warnings s.
Proof. unfold executeQueue. repeat case_match; reflexivity. Qed.

Lemma executeQueue_outQueue (cfg : Config) (s : State) :
  outQueue (snd (executeQueue cfg s)) = scrub (outQueue s).
Proof.
  unfold executeQueue. cbn [outQueue set_outQueue].
  repeat case_match; cbn; congruence.
Qed.

Lemma scrub_app_kept (q : list Value) (tail : list Value) (v : Value) :
  failsafe v = false -> scrub (q ++ v :: tail) = scrub q ++ v :: tail.
Proof.
  intros Hv. induction q as [|x q IH].
  - cbn. rewrite Hv. reflexivity.
  - cbn [app scrub]. destruct (failsafe x); [exact IH | reflexivity].
Qed.

(** What the failsafe loop does remove: a prefix of numbers and booleans,
    up to the first entry that is a string or an object by [typeof]. *)
Lemma scrub_prefix (bad : list Value) (v : Value) (rest : list Value) :
  forallb failsafe bad = true -> failsafe v = false ->
  scrub (bad ++ v :: rest) = v :: rest.
Proof.
  intros Hbad Hv. induction bad as [|x bad IH].
  - cbn. rewrite Hv. reflexivity.
  - cbn in Hbad. apply andb_prop in Hbad as [Hx Hbad].
    cbn [app scrub]. rewrite Hx. exact (IH Hbad).
Qed.

Lemma scrub_all (bad : list Value) :
  forallb failsafe bad = true -> scrub bad = [].
Proof.
  induction bad as [|x bad IH]; [reflexivity|].
  cbn. intros H. apply andb_prop in H as [Hx Hbad]. rewrite Hx. exact (IH Hbad).
Qed.

(** *** Capacity rejection *)

(** C7. In POST mode an event whose [memorySize] is at least [maxBytes]
    makes [enqueueRequest] emit the size-limit warning and return: the queue
    is the queue before the call. *)
Theorem enqueueRequest_too_long (cfg : Config) (request : list (string * Value))
    (url : string) (s : State) (size : Z) :
  usePost cfg = true ->
  encodedSize request = Some size ->
  (maxBytes cfg <= size)%Z ->
  enqueueRequest cfg request url s
    = (Ret tt, warn (sizeLimitWarning size (maxBytes cfg)) s)
  /\ outQueue (snd (enqueueRequest cfg request url s)) = outQueue s
  /\ length (outQueue (snd (enqueueRequest cfg request url s))) = length (outQueue s)
  /\ warnings (snd (enqueueRequest cfg request url s))
       = warnings s ++ [sizeLimitWarning size (maxBytes cfg)].
Proof.
  intros Hpost Hsize Hmax. unfold encodedSize in Hsize. unfold enqueueRequest.
  rewrite Hpost. destruct (getBody request) as [body| |]; try discriminate.
  injection Hsize as <-.
  destruct (Z.leb_spec (maxBytes cfg) (memorySize body)) as [_|Hlt]; [|lia].
  repeat split; reflexivity.
Qed.

Lemma enqueueRequest_too_long_witness :
  maxBytes (fst postManager) = 40000%Z
  /\ encodedSize hugeEvent = Some 40019%Z
  /\ outQueue (snd (enqueueRequest (fst postManager) hugeEvent "http://c" (snd postManager)))
     = []
  /\ warnings (snd (enqueueRequest (fst postManager) hugeEvent "http://c" (snd postManager)))
     = ["Event of size 40019 is too long - the maximum size is 40000"].
Proof.
  assert (Hsize : encodedSize hugeEvent = Some 40019%Z) by (vm_compute; reflexivity).
  split; [reflexivity|]. split; [exact Hsize|].
  destruct (enqueueRequest_too_long (fst postManager) hugeEvent "http://c"
              (snd postManager) 40019 eq_refl Hsize ltac:(vm_compute; discriminate))
    as (_ & Hq & _ & Hw).
  split; [exact Hq|]. rewrite Hw. reflexivity.
Defined.

(** *** Draining without a collector *)

(** C9. When the queue is not empty after the failsafe loop and no collector
    URL has been set, [executeQueue] throws the configuration error; the
    flag [executingQueue] keeps its value, no request is created or sent,
    and the queue is the scrubbed queue. *)
Theorem executeQueue_no_collector (cfg : Config) (s : State) :
  scrub (outQueue s) <> [] ->
  configCollectorUrl s = None ->
  executeQueue cfg s = (Throw (Thrown noCollector), set_outQueue (scrub (outQueue s)) s)
  /\ executingQueue (snd (executeQueue cfg s)) = executingQueue s
  /\ network (snd (executeQueue cfg s)) = network s
  /\ transfers (snd (executeQueue cfg s)) = transfers s
  /\ localStorage (snd (executeQueue cfg s)) = localStorage s
  /\ outQueue (snd (executeQueue cfg s)) = scrub (outQueue s).
Proof.
  intros Hne Hurl. unfold executeQueue.
  cbn [outQueue set_outQueue configCollectorUrl]. rewrite Hurl.
  destruct (scrub (outQueue s)) as [|nextRequest rest] eqn:Hq; [congruence|].
  rewrite <- Hq. repeat split; reflexivity.
Qed.

Lemma executeQueue_no_collector_witness :
  outQueue (snd reloadedGetManager) = [JStr "?e=pv"]
  /\ fst (executeQueue (fst reloadedGetManager) (snd reloadedGetManager))
     = Throw (Thrown "No Snowplow collector configured, cannot track")
  /\ executingQueue (snd (executeQueue (fst reloadedGetManager) (snd reloadedGetManager)))
     = false
  /\ network (snd (executeQueue (fst reloadedGetManager) (snd reloadedGetManager))) = []
  /\ outQueue (snd (executeQueue (fst reloadedGetManager) (snd reloadedGetManager)))
     = [JStr "?e=pv"].
Proof.
  assert (Hq : outQueue (snd reloadedGetManager) = [JStr "?e=pv"])
    by (vm_compute; reflexivity).
  destruct (executeQueue_no_collector (fst reloadedGetManager) (snd reloadedGetManager))
    as (Hthrow & Hflag & Hnet & _ & _ & Hout).
  - rewrite Hq. discriminate.
  - reflexivity.
  - split; [exact Hq|]. split; [rewrite Hthrow; reflexivity|].
    split; [rewrite Hflag; reflexivity|]. split; [rewrite Hnet; reflexivity|].
    rewrite Hout, Hq. reflexivity.
Defined.

(** *** Enqueueing in GET mode *)

Lemma saveAndTrigger_warnings (cfg : Config) (url : string) (s : State) :
  warnings (snd (saveAndTrigger cfg url s)) = warnings s.
Proof.
  unfold saveAndTrigger, attemptWriteLocalStorage.
  repeat case_match; simplify_eq; try rewrite executeQueue_warnings; reflexivity.
Qed.

Lemma saveAndTrigger_outQueue (cfg : Config) (url : string) (s : State) :
  outQueue (snd (saveAndTrigger cfg url s)) = outQueue s
  \/ outQueue (snd (saveAndTrigger cfg url s)) = scrub (outQueue s).
Proof.
  unfold saveAndTrigger, attemptWriteLocalStorage.
  repeat case_match; simplify_eq; try rewrite executeQueue_outQueue; auto.
Qed.

(** C10. In GET mode [enqueueRequest] has no size check: whatever the length
    of the query string, no warning is emitted and the query string is
    appended at the tail of the queue (the file pushes it at line 157 and
    once more at line 159); the only entries that can leave the queue in the
    same call are leading ones removed by the failsafe loop of a drain the
    call starts. *)
Theorem enqueueRequest_get_no_capacity_check (cfg : Config)
    (request : list (string * Value)) (url : string) (s : State) (q : string) :
  usePost cfg = false ->
  getQuerystring request = Ret q ->
  warnings (snd (enqueueRequest cfg request url s)) = warnings s
  /\ (outQueue (snd (enqueueRequest cfg request url s))
        = outQueue s ++ [JStr q; JStr q]
      \/ outQueue (snd (enqueueRequest cfg request url s))
        = scrub (outQueue s) ++ [JStr q; JStr q]).
Proof.
  intros Hget Hq. unfold enqueueRequest. rewrite Hget, Hq.
  split.
  - rewrite saveAndTrigger_warnings. reflexivity.
  - destruct (saveAndTrigger_outQueue cfg url (push (JStr q) (push (JStr q) s)))
      as [H|H]; rewrite H; cbn [push outQueue set_outQueue]; rewrite <- app_assoc.
    + left. reflexivity.
    + right. apply scrub_app_kept. reflexivity.
Qed.

Lemma encodeURIComponent_repeat_a (n : nat) :
  encodeURIComponent (repeatChar "a" n) = repeatChar "a" n.
Proof.
  induction n as [|n IH]; [reflexivity|].
  cbn [repeatChar]. unfold encodeURIComponent in *. cbn [concatMap].
  rewrite IH. reflexivity.
Qed.

Lemma getQuerystring_long (n : nat) :
  getQuerystring [("e", JStr "pv"); ("url", JStr (repeatChar "a" n))]
  = Ret ("?e=pv&url=" +:+ repeatChar "a" n).
Proof.
  unfold getQuerystring. cbn [plainPairs getOwn String.eqb Ascii.eqb Bool.eqb
    isLowPriority lowPriorityKeys existsb negb orb ToString bind].
  rewrite encodeURIComponent_repeat_a. reflexivity.
Qed.

Lemma enqueueRequest_get_no_capacity_check_witness :
  (maxBytes (fst getManager) <=? Z.of_nat (String.length hugeQuery))%Z = true
  /\ warnings (snd (enqueueRequest (fst getManager) hugeEvent "http://c" (snd getManager)))
     = []
  /\ outQueue (snd (enqueueRequest (fst getManager) hugeEvent "http://c" (snd getManager)))
     = [JStr hugeQuery; JStr hugeQuery].
Proof.
  split; [vm_compute; reflexivity|].
  destruct (enqueueRequest_get_no_capacity_check (fst getManager) hugeEvent "http://c"
              (snd getManager) hugeQuery eq_refl (getQuerystring_long (200 * 200)))
    as (Hw & Hq).
  split; [rewrite Hw; reflexivity|].
  destruct Hq as [Hq|Hq]; rewrite Hq; reflexivity.
Defined.

(** *** The outcome of a send *)

Lemma persist_localStorage (cfg : Config) (s : State) :
  localStorage (persist cfg s) = storeAfterSave cfg (outQueue s) (localStorage s).
Proof.
  unfold persist, storeAfterSave, attemptWriteLocalStorage.
  destruct (useLocalStorage cfg); [|reflexivity].
  destruct (setItemAccepts cfg _ _); reflexivity.
Qed.

Lemma persist_other (cfg : Config) (s : State) :
  outQueue (persist cfg s) = outQueue s
  /\ executingQueue (persist cfg s) = executingQueue s
  /\ configCollectorUrl (persist cfg s) = configCollectorUrl s
  /\ transfers (persist cfg s) = transfers s
  /\ network (persist cfg s) = network s
  /\ warnings (persist cfg s) = warnings s.
Proof.
  unfold persist, attemptWriteLocalStorage.
  destruct (useLocalStorage cfg); [|auto 10].
  destruct (setItemAccepts cfg _ _); cbn; auto 10.
Qed.

(** The handlers of a request. Let request [i] be in flight with [k]
    selected entries, [k] being at most the length of the queue (which
    holds while the exported [executeQueue] is not called during a drain,
    [reachable_selectedWithinQueue]). In POST mode a status in [200, 400)
    removes exactly the first [k] entries, saves the queue and calls
    [executeQueue] again; a status of 400 or more leaves queue, store and
    network untouched and clears [executingQueue]. In GET mode the load
    handler removes the head entry, saves and calls [executeQueue] again;
    the error handler leaves the queue untouched and clears
    [executingQueue]. The timeout of a POST request does as a rejection
    does; a completion with a status below 200 (a network error reports
    status 0) changes nothing but the request, and the timeout that is
    still armed then clears [executingQueue] with the queue untouched. *)
Lemma send_outcomes (cfg : Config) (s : State) (i : nat) (t : Transfer) (status : Z) :
  transfers s !! i = Some t ->
  inFlight t = true ->
  (numberToSend t <= length (outQueue s))%nat ->
  (usePost cfg = true -> (200 <= status < 400)%Z ->
     handle cfg (ReadyState4 i status) s
       = Some (executeQueue cfg (afterAccepted cfg i t s))
     /\ outQueue s
        = firstn (numberToSend t) (outQueue s) ++ outQueue (afterAccepted cfg i t s)
     /\ length (firstn (numberToSend t) (outQueue s)) = numberToSend t
     /\ localStorage (afterAccepted cfg i t s)
        = storeAfterSave cfg (outQueue (afterAccepted cfg i t s)) (localStorage s))
  /\ (usePost cfg = true -> (400 <= status)%Z ->
     exists s', handle cfg (ReadyState4 i status) s = Some (Ret tt, s')
       /\ outQueue s' = outQueue s
       /\ localStorage s' = localStorage s
       /\ network s' = network s
       /\ executingQueue s' = false)
  /\ (usePost cfg = false -> numberToSend t = 1%nat ->
     handle cfg (ImageLoad i) s = Some (executeQueue cfg (afterLoaded cfg i t s))
     /\ outQueue s = firstn 1 (outQueue s) ++ outQueue (afterLoaded cfg i t s)
     /\ length (firstn 1 (outQueue s)) = 1%nat
     /\ localStorage (afterLoaded cfg i t s)
        = storeAfterSave cfg (outQueue (afterLoaded cfg i t s)) (localStorage s))
  /\ (usePost cfg = false ->
     exists s', handle cfg (ImageError i) s = Some (Ret tt, s')
       /\ outQueue s' = outQueue s
       /\ localStorage s' = localStorage s
       /\ network s' = network s
       /\ executingQueue s' = false)
  /\ (usePost cfg = true -> timerArmed t = true ->
     exists s', handle cfg (Timeout i) s = Some (Ret tt, s')
       /\ outQueue s' = outQueue s
       /\ localStorage s' = localStorage s
       /\ network s' = network s
       /\ executingQueue s' = false)
  /\ (usePost cfg = true -> (status < 200)%Z -> timerArmed t = true ->
     exists s' s'',
       handle cfg (ReadyState4 i status) s = Some (Ret tt, s')
       /\ outQueue s' = outQueue s
       /\ executingQueue s' = executingQueue s
       /\ transfers s' = <[i := landed t]> (transfers s)
       /\ handle cfg (Timeout i) s' = Some (Ret tt, s'')
       /\ outQueue s'' = outQueue s
       /\ localStorage s'' = localStorage s
       /\ network s'' = network s
       /\ executingQueue s'' = false).
Proof.
  intros Hi Hfly Hk.
  split; [|split; [|split; [|split; [|split]]]].
  - intros Hpost Hok. split; [|split; [|split]].
    + cbn [handle]. rewrite Hi, Hpost, Hfly. cbn [andb]. unfold onreadystatechange.
      destruct (Z.leb_spec 200 status); [|lia].
      destruct (Z.ltb_spec status 400); [|lia]. reflexivity.
    + unfold afterAccepted. cbn [setTransfer outQueue set_transfers].
      destruct (persist_other cfg (shiftN (numberToSend t) (setTransfer i (landed t) s)))
        as (-> & _). cbn. symmetry. apply firstn_skipn.
    + apply firstn_length_le. exact Hk.
    + unfold afterAccepted. cbn [setTransfer localStorage outQueue set_transfers].
      rewrite persist_localStorage.
      destruct (persist_other cfg (shiftN (numberToSend t) (setTransfer i (landed t) s)))
        as (-> & _). reflexivity.
  - intros Hpost Hrej. eexists. split.
    + cbn [handle]. rewrite Hi, Hpost, Hfly. cbn [andb]. unfold onreadystatechange.
      destruct (Z.leb_spec 200 status); [|lia].
      destruct (Z.ltb_spec status 400); [lia|]. cbn [andb].
      destruct (Z.leb_spec 400 status); [|lia]. reflexivity.
    + repeat split; reflexivity.
  - intros Hget Hone. split; [|split; [|split]].
    + cbn [handle]. rewrite Hi, Hget, Hfly. reflexivity.
    + unfold afterLoaded.
      destruct (persist_other cfg (shiftN 1 (setTransfer i (landed t) s))) as (-> & _).
      cbn [shiftN outQueue set_outQueue setTransfer set_transfers].
      symmetry. apply firstn_skipn.
    + apply firstn_length_le. lia.
    + unfold afterLoaded. rewrite persist_localStorage.
      destruct (persist_other cfg (shiftN 1 (setTransfer i (landed t) s))) as (-> & _).
      reflexivity.
  - intros Hget. eexists. split.
    + cbn [handle]. rewrite Hi, Hget, Hfly. reflexivity.
    + repeat split; reflexivity.
  - intros Hpost Harmed. eexists. split.
    + cbn [handle]. rewrite Hi, Hpost, Harmed. reflexivity.
    + repeat split; reflexivity.
  - intros Hpost Hlow Harmed.
    exists (setTransfer i (landed t) s).
    exists (set_executingQueue false
              (setTransfer i (disarmed (landed (landed t))) (setTransfer i (landed t) s))).
    split.
    + cbn [handle]. rewrite Hi, Hpost, Hfly. cbn [andb]. unfold onreadystatechange.
      destruct (Z.leb_spec 200 status); [lia|]. cbn [andb].
      destruct (Z.leb_spec 400 status); [lia|]. reflexivity.
    + split; [reflexivity|]. split; [reflexivity|]. split; [reflexivity|]. split.
      * cbn [handle setTransfer transfers set_transfers].
        rewrite list_lookup_insert_eq by (eapply lookup_lt_Some; exact Hi).
        rewrite Hpost. cbn [landed timerArmed]. rewrite Harmed. reflexivity.
      * repeat split; reflexivity.
Qed.

Lemma send_outcomes_witness :
  (handle (fst postManager) (ReadyState4 0 200) postDraining
     = Some (executeQueue (fst postManager)
               (afterAccepted (fst postManager) 0 xhrOfTwo postDraining))
   /\ length (outQueue postDraining) = 2%nat
   /\ outQueue (afterAccepted (fst postManager) 0 xhrOfTwo postDraining) = [])
  /\ (exists s', handle (fst postManager) (ReadyState4 0 503) postDraining = Some (Ret tt, s')
        /\ outQueue s' = outQueue postDraining /\ executingQueue s' = false)
  /\ (handle (fst getManager) (ImageLoad 0) getDraining
       = Some (executeQueue (fst getManager)
                 (afterLoaded (fst getManager) 0 imageOfOne getDraining))
      /\ outQueue getDraining = [JStr "?e=pv&p=web&tv=js-2.3.0"; JStr "?e=pv&p=web&tv=js-2.3.0"]
      /\ outQueue (afterLoaded (fst getManager) 0 imageOfOne getDraining)
         = [JStr "?e=pv&p=web&tv=js-2.3.0"])
  /\ (exists s', handle (fst getManager) (ImageError 0) getDraining = Some (Ret tt, s')
        /\ outQueue s' = outQueue getDraining /\ executingQueue s' = false).
Proof.
  assert (Hp : transfers postDraining !! 0%nat = Some xhrOfTwo) by (vm_compute; reflexivity).
  assert (Hg : transfers getDraining !! 0%nat = Some imageOfOne) by (vm_compute; reflexivity).
  assert (Hlp : length (outQueue postDraining) = 2%nat) by (vm_compute; reflexivity).
  assert (Hlg : length (outQueue getDraining) = 2%nat) by (vm_compute; reflexivity).
  destruct (send_outcomes (fst postManager) postDraining 0 xhrOfTwo 200 Hp eq_refl
              ltac:(rewrite Hlp; cbn; lia)) as (Hacc & _).
  destruct (send_outcomes (fst postManager) postDraining 0 xhrOfTwo 503 Hp eq_refl
              ltac:(rewrite Hlp; cbn; lia)) as (_ & Hrej & _).
  destruct (send_outcomes (fst getManager) getDraining 0 imageOfOne 0 Hg eq_refl
              ltac:(rewrite Hlg; cbn; lia)) as (_ & _ & Hload & Herr & _).
  destruct (Hacc eq_refl ltac:(lia)) as (Ha & _).
  destruct (Hrej eq_refl ltac:(lia)) as (s1 & Hr1 & Hr2 & _ & _ & Hr3).
  destruct (Hload eq_refl eq_refl) as (Hl & _).
  destruct (Herr eq_refl) as (s2 & He1 & He2 & _ & _ & He3).
  split; [|split; [|split]].
  - split; [exact Ha|]. split; [exact Hlp|]. vm_compute. reflexivity.
  - exists s1. auto.
  - split; [exact Hl|]. split; vm_compute; reflexivity.
  - exists s2. auto.
Defined.

(** *** Writes of the store *)

Lemma saveAndTrigger_localStorage (cfg : Config) (url : string) (s : State) :
  localStorage (snd (saveAndTrigger cfg url s))
  = storeAfterSave cfg (outQueue s) (localStorage s).
Proof.
  unfold saveAndTrigger, storeAfterSave, attemptWriteLocalStorage.
  cbn [outQueue localStorage set_configCollectorUrl].
  destruct (useLocalStorage cfg); cbn [andb].
  - destruct (setItemAccepts cfg _ _); case_match;
      try rewrite executeQueue_localStorage; reflexivity.
  - case_match; try rewrite executeQueue_localStorage; reflexivity.
Qed.

Lemma storeAfterSave_disabled (cfg : Config) (q : list Value) (store : gmap string string) :
  useLocalStorage cfg = false -> storeAfterSave cfg q store = store.
Proof. intros H. unfold storeAfterSave. rewrite H. reflexivity. Qed.

Lemma storeAfterSave_accepted (cfg : Config) (q : list Value) (store : gmap string string) :
  useLocalStorage cfg = true ->
  setItemAccepts cfg (queueName cfg) (stringify (JArr q)) = true ->
  storeAfterSave cfg q store !! queueName cfg = Some (stringify (JArr q)).
Proof.
  intros H1 H2. unfold storeAfterSave. rewrite H1, H2. cbn [andb].
  apply lookup_insert_eq.
Qed.

(** The failsafe loop of [executeQueue] empties the loaded queue, and the
    store still holds the old one; and on a store that refuses the write,
    the queue after [enqueueRequest] is not in the store although the store
    is in use. *)
Lemma store_not_rewritten :
  (useLocalStorage (fst numberManager) = true
   /\ outQueue (snd numberManager) = [JNum 7]
   /\ outQueue (snd (executeQueue (fst numberManager) (snd numberManager))) = []
   /\ localStorage (snd (executeQueue (fst numberManager) (snd numberManager)))
        !! queueName (fst numberManager)
      = Some (stringify (JArr [JNum 7]))
   /\ stringify (JArr [JNum 7])
      <> stringify (JArr (outQueue (snd (executeQueue (fst numberManager)
                                           (snd numberManager))))))
  /\ (useLocalStorage (fst fullStoreManager) = true
      /\ length (outQueue (snd (enqueueRequest (fst fullStoreManager) pageView "http://c"
                                  (snd fullStoreManager)))) = 2%nat
      /\ localStorage (snd (enqueueRequest (fst fullStoreManager) pageView "http://c"
                              (snd fullStoreManager)))
           !! queueName (fst fullStoreManager)
         = None).
Proof.
  split.
  - repeat split; try (vm_compute; reflexivity). vm_compute. discriminate.
  - repeat split; vm_compute; reflexivity.
Qed.

(** C3, amended. [enqueueRequest] after its appends, and the success branch
    of a callback after its removals, ask [attemptWriteLocalStorage] to save
    the queue as it then stands: the store holds that queue when it is in
    use and accepts the write, and is unchanged otherwise. [executeQueue]
    itself, and so its failsafe loop, never writes the store. *)
Theorem store_follows_append_and_removal (cfg : Config) (s : State) :
  (forall request url body,
     usePost cfg = true -> getBody request = Ret body ->
     (memorySize body < maxBytes cfg)%Z ->
     localStorage (snd (enqueueRequest cfg request url s))
     = storeAfterSave cfg (outQueue s ++ [bodyValue body; bodyValue body])
         (localStorage s))
  /\ (forall request url q,
     usePost cfg = false -> getQuerystring request = Ret q ->
     localStorage (snd (enqueueRequest cfg request url s))
     = storeAfterSave cfg (outQueue s ++ [JStr q; JStr q]) (localStorage s))
  /\ (forall i t status,
     transfers s !! i = Some t -> inFlight t = true ->
     usePost cfg = true -> (200 <= status < 400)%Z ->
     exists r s', handle cfg (ReadyState4 i status) s = Some (r, s')
       /\ localStorage s'
          = storeAfterSave cfg (skipn (numberToSend t) (outQueue s)) (localStorage s))
  /\ (forall i t,
     transfers s !! i = Some t -> inFlight t = true -> usePost cfg = false ->
     exists r s', handle cfg (ImageLoad i) s = Some (r, s')
       /\ localStorage s' = storeAfterSave cfg (skipn 1 (outQueue s)) (localStorage s))
  /\ localStorage (snd (executeQueue cfg s)) = localStorage s
  /\ (forall q store, useLocalStorage cfg = false -> storeAfterSave cfg q store = store)
  /\ (forall q store,
     useLocalStorage cfg = true ->
     setItemAccepts cfg (queueName cfg) (stringify (JArr q)) = true ->
     storeAfterSave cfg q store !! queueName cfg = Some (stringify (JArr q))).
Proof.
  split; [|split; [|split; [|split; [|split; [|split]]]]].
  - intros request url body Hpost Hbody Hsize. unfold enqueueRequest.
    rewrite Hpost, Hbody.
    destruct (Z.leb_spec (maxBytes cfg) (memorySize body)) as [Hge|_]; [lia|].
    rewrite saveAndTrigger_localStorage. cbn [push outQueue set_outQueue localStorage].
    rewrite <- app_assoc. reflexivity.
  - intros request url q Hget Hq. unfold enqueueRequest. rewrite Hget, Hq.
    rewrite saveAndTrigger_localStorage. cbn [push outQueue set_outQueue localStorage].
    rewrite <- app_assoc. reflexivity.
  - intros i t status Hi Hfly Hpost Hok.
    destruct (executeQueue cfg (afterAccepted cfg i t s)) as [r s'] eqn:Hex.
    exists r, s'. split.
    + cbn [handle]. rewrite Hi, Hpost, Hfly. cbn [andb]. unfold onreadystatechange.
      destruct (Z.leb_spec 200 status); [|lia].
      destruct (Z.ltb_spec status 400); [|lia]. cbn [andb].
      f_equal. exact Hex.
    + change s' with (snd (r, s')). rewrite <- Hex, executeQueue_localStorage.
      unfold afterAccepted. cbn [setTransfer localStorage set_transfers].
      rewrite persist_localStorage. reflexivity.
  - intros i t Hi Hfly Hget.
    destruct (executeQueue cfg (afterLoaded cfg i t s)) as [r s'] eqn:Hex.
    exists r, s'. split.
    + cbn [handle]. rewrite Hi, Hget, Hfly. cbn [negb andb]. f_equal. exact Hex.
    + change s' with (snd (r, s')). rewrite <- Hex, executeQueue_localStorage.
      unfold afterLoaded. rewrite persist_localStorage. reflexivity.
  - apply executeQueue_localStorage.
  - intros q store. apply storeAfterSave_disabled.
  - intros q store. apply storeAfterSave_accepted.
Qed.

Lemma store_follows_append_and_removal_witness :
  localStorage getDraining !! queueName (fst getManager)
  = Some (stringify (JArr [JStr "?e=pv&p=web&tv=js-2.3.0"; JStr "?e=pv&p=web&tv=js-2.3.0"]))
  /\ (exists r s', handle (fst getManager) (ImageLoad 0) getDraining = Some (r, s')
        /\ localStorage s' !! queueName (fst getManager)
           = Some (stringify (JArr [JStr "?e=pv&p=web&tv=js-2.3.0"])))
  /\ (exists r s', handle (fst postManager) (ReadyState4 0 200) postDraining = Some (r, s')
        /\ localStorage s' !! queueName (fst postManager) = Some (stringify (JArr []))).
Proof.
  destruct (store_follows_append_and_removal (fst getManager) (snd getManager))
    as (_ & Hget & _).
  destruct (store_follows_append_and_removal (fst getManager) getDraining)
    as (_ & _ & _ & Hload & _).
  destruct (store_follows_append_and_removal (fst postManager) postDraining)
    as (_ & _ & Hdone & _).
  split; [|split].
  - unfold getDraining.
    rewrite (Hget pageView "http://c" "?e=pv&p=web&tv=js-2.3.0" eq_refl eq_refl).
    vm_compute. reflexivity.
  - destruct (Hload 0%nat imageOfOne) as (r & s' & Hh & Hs);
      [vm_compute; reflexivity | reflexivity | reflexivity |].
    exists r, s'. split; [exact Hh|]. rewrite Hs. vm_compute. reflexivity.
  - destruct (Hdone 0%nat xhrOfTwo 200%Z) as (r & s' & Hh & Hs);
      [vm_compute; reflexivity | reflexivity | reflexivity | lia |].
    exists r, s'. split; [exact Hh|]. rewrite Hs. vm_compute. reflexivity.
Defined.

(** *** [getBody] *)

Lemma utf8Length_allAscii (s : string) :
  allAscii s = true -> utf8Length s = String.length s.
Proof.
  induction s as [|c rest IH]; [reflexivity|].
  cbn [allAscii utf8Length String.length]. intros H.
  apply andb_prop in H as [Hc Hrest]. rewrite Hc, (IH Hrest). reflexivity.
Qed.

(** For a value with a character outside ASCII the size that [getBody]
    computes is the number of characters of the serialized form, one less
    than its number of bytes in UTF-8. *)
Lemma memorySize_is_not_bytes :
  encodedSize cafe = Some 10%Z
  /\ (exists body, getBody cafe = Ret body
        /\ memorySize body = 10%Z
        /\ utf8Length (stringify (JObj (cleanedRequest body))) = 11%nat
        /\ memorySize body <> Z.of_nat (utf8Length (stringify (JObj (cleanedRequest body))))).
Proof.
  split; [reflexivity|]. eexists. split; [reflexivity|].
  repeat split; try reflexivity. vm_compute. discriminate.
Qed.

Lemma mapValues_toString (request : list (string * Value)) :
  Forall (fun kv => exists sv, toString (snd kv) = Ret sv) request ->
  exists cleaned,
    mapValues toString request = Ret cleaned
    /\ map fst cleaned = map fst request
    /\ Forall2 (fun kv kv' => exists sv, toString (snd kv) = Ret sv /\ snd kv' = JStr sv)
         request cleaned.
Proof.
  induction 1 as [|[k v] rest (sv & Hsv) _ (cleaned & Hmap & Hkeys & Hvals)].
  - exists []. repeat split. constructor.
  - exists ((k, JStr sv) :: cleaned). cbn [mapValues snd] in *.
    rewrite Hsv. cbn [bind]. rewrite Hmap. cbn [bind map fst].
    rewrite Hkeys. repeat split. constructor; [|exact Hvals].
    exists sv. split; [exact Hsv | reflexivity].
Qed.

(** C8, amended. For every request whose values all have a [toString],
    [getBody] returns; the cleaned request has the same keys in the same
    order, each value being the string form of the original one, and
    [memorySize] is the [length] (the number of UTF-16 code units) of the
    JSON text of the cleaned request, which is its number of bytes in UTF-8
    when that text is ASCII only. *)
Theorem getBody_string_values_and_length (request : list (string * Value)) :
  Forall (fun kv => exists sv, toString (snd kv) = Ret sv) request ->
  exists body,
    getBody request = Ret body
    /\ map fst (cleanedRequest body) = map fst request
    /\ Forall2 (fun kv kv' => exists sv, toString (snd kv) = Ret sv /\ snd kv' = JStr sv)
         request (cleanedRequest body)
    /\ memorySize body
       = Z.of_nat (String.length (stringify (JObj (cleanedRequest body))))
    /\ (allAscii (stringify (JObj (cleanedRequest body))) = true ->
        memorySize body = Z.of_nat (utf8Length (stringify (JObj (cleanedRequest body))))).
Proof.
  intros Hall. destruct (mapValues_toString request Hall) as (cleaned & Hmap & Hkeys & Hvals).
  exists {| cleanedRequest := cleaned;
            memorySize := Z.of_nat (String.length (stringify (JObj cleaned))) |}.
  unfold getBody. rewrite Hmap. cbn [bind cleanedRequest memorySize].
  repeat split; try assumption.
  intros Hascii. rewrite (utf8Length_allAscii _ Hascii). reflexivity.
Qed.

Lemma getBody_string_values_and_length_witness :
  exists body,
    getBody mixedEvent = Ret body
    /\ cleanedRequest body = [("e", JStr "se"); ("se_va", JStr "42"); ("ok", JStr "true")]
    /\ memorySize body = 35%Z
    /\ utf8Length (stringify (JObj (cleanedRequest body))) = 35%nat.
Proof.
  destruct (getBody_string_values_and_length mixedEvent) as (body & Hb & _ & _ & Hsize & _).
  - repeat constructor; eexists; reflexivity.
  - exists body. split; [exact Hb|].
    assert (Hc : Ret body = Ret {| cleanedRequest :=
                   [("e", JStr "se"); ("se_va", JStr "42"); ("ok", JStr "true")];
                   memorySize := 35 |}) by (rewrite <- Hb; reflexivity).
    injection Hc as ->. repeat split; reflexivity.
Defined.

(** *** One call of [enqueueRequest], two entries *)

(** In POST mode every accepted event is appended twice; the only entries
    that can leave the queue in the same call are leading ones removed by
    the failsafe loop of a drain the call starts. *)
Lemma enqueueRequest_post_appends_twice (cfg : Config)
    (request : list (string * Value)) (url : string) (s : State) (body : Body) :
  usePost cfg = true ->
  getBody request = Ret body ->
  (memorySize body < maxBytes cfg)%Z ->
  outQueue (snd (enqueueRequest cfg request url s))
    = outQueue s ++ [bodyValue body; bodyValue body]
  \/ outQueue (snd (enqueueRequest cfg request url s))
    = scrub (outQueue s) ++ [bodyValue body; bodyValue body].
Proof.
  intros Hpost Hbody Hsize. unfold enqueueRequest. rewrite Hpost, Hbody.
  destruct (Z.leb_spec (maxBytes cfg) (memorySize body)) as [Hge|_]; [lia|].
  destruct (saveAndTrigger_outQueue cfg url
              (push (bodyValue body) (push (bodyValue body) s)))
    as [H|H]; rewrite H; cbn [push outQueue set_outQueue]; rewrite <- app_assoc.
  - left. reflexivity.
  - right. apply scrub_app_kept. reflexivity.
Qed.

(** C1. After a single call of [enqueueRequest] on an empty queue the queue
    holds two entries, the body pushed at line 154 and the one pushed at
    line 159, and a new instance of the same tracker loads both. *)
Theorem one_enqueue_two_entries :
  outQueue (snd postManager) = []
  /\ network afterOneEvent = []
  /\ (exists body, getBody pageView = Ret body
        /\ outQueue afterOneEvent = [bodyValue body; bodyValue body])
  /\ length (outQueue afterOneEvent) = 2%nat
  /\ queueName (fst secondInstance) = queueName (fst postManager)
  /\ outQueue (snd secondInstance) = outQueue afterOneEvent
  /\ length (outQueue (snd secondInstance)) = 2%nat.
Proof.
  split; [reflexivity|]. split; [vm_compute; reflexivity|].
  split; [eexists; split; [reflexivity|vm_compute; reflexivity]|].
  repeat split; vm_compute; reflexivity.
Qed.

(** *** A [null] at the head of a loaded queue *)

(** C6. [typeof null] is ['object'], so the failsafe loop keeps a leading
    [null]. In POST mode the first drain then throws a [TypeError] while
    reading [memorySize] of [null], with [executingQueue] set and nothing
    sent; in GET mode it requests the URL that ends in [null]. In both the
    [null] stays at the head of the queue. *)
Theorem null_head_survives_failsafe :
  typeof JNull = TObject
  /\ failsafe JNull = false
  /\ (forall q, scrub (JNull :: q) = JNull :: q)
  /\ outQueue (snd nullPostManager) = [JNull; storedBody]
  /\ fst nullPostDrain = Throw TypeError
  /\ hd_error (outQueue (snd nullPostDrain)) = Some JNull
  /\ length (outQueue (snd nullPostDrain)) = 4%nat
  /\ network (snd nullPostDrain) = []
  /\ executingQueue (snd nullPostDrain) = true
  /\ outQueue (snd nullGetManager) = [JNull; JStr "?e=pv"]
  /\ network (snd nullGetDrain) = [Get "http://c/inull"]
  /\ hd_error (outQueue (snd nullGetDrain)) = Some JNull.
Proof. repeat split; try (intros q; reflexivity); vm_compute; reflexivity. Qed.

(** *** At most one request in flight *)

Lemma countIf_app {A : Type} (f : A -> bool) (l1 l2 : list A) :
  countIf f (l1 ++ l2) = (countIf f l1 + countIf f l2)%nat.
Proof. induction l1 as [|x l1 IH]; cbn; [reflexivity | rewrite IH; lia]. Qed.

Lemma countIf_insert {A : Type} (f : A -> bool) (l : list A) :
  forall (i : nat) (x y : A),
    l !! i = Some x ->
    (countIf f (<[i := y]> l) + Nat.b2n (f x) = countIf f l + Nat.b2n (f y))%nat.
Proof.
  induction l as [|z l IH]; intros i x y Hi; [discriminate|].
  destruct i as [|i].
  - injection Hi as ->. cbn. lia.
  - change (<[S i := y]> (z :: l)) with (z :: <[i := y]> l).
    change ((z :: l) !! S i) with (l !! i) in Hi.
    specialize (IH i x y Hi). cbn [countIf]. lia.
Qed.

Lemma countIf_zero {A : Type} (f : A -> bool) (l : list A) :
  countIf f l = 0%nat -> Forall (fun x => f x = false) l.
Proof.
  induction l as [|x l IH]; cbn; intros H; constructor.
  - destruct (f x); [discriminate | reflexivity].
  - apply IH. destruct (f x); cbn in H; [discriminate | exact H].
Qed.

Lemma countIf_le {A : Type} (f g : A -> bool) (l : list A) :
  (forall x, f x = true -> g x = true) -> (countIf f l <= countIf g l)%nat.
Proof.
  intros Himp. induction l as [|x l IH]; cbn; [lia|].
  destruct (f x) eqn:Hf; [rewrite (Himp x Hf)|]; cbn; lia.
Qed.

Lemma inFlightCount_le_liveCount (s : State) : (inFlightCount s <= liveCount s)%nat.
Proof.
  apply countIf_le. intros t H. unfold live. rewrite H. reflexivity.
Qed.

Lemma quiet_selectedWithinQueue (ts : list Transfer) (q : list Value) :
  countIf inFlight ts = 0%nat ->
  Forall (fun t => inFlight t = true -> (numberToSend t <= length q)%nat) ts.
Proof.
  intros H. apply countIf_zero in H. eapply Forall_impl; [exact H|].
  cbn. intros t Ht Hfly. congruence.
Qed.

Lemma quiet_no_flight (s : State) : liveCount s = 0%nat -> inFlightCount s = 0%nat.
Proof. pose proof (inFlightCount_le_liveCount s). lia. Qed.

Lemma chooseLoop_bound (maxBytes : Z) (rest : list Value) :
  forall (i : nat) (byteCount : Number) (n : nat),
    chooseLoop maxBytes rest i byteCount = Ret n -> (n <= i + length rest)%nat.
Proof.
  induction rest as [|x rest IH]; intros i byteCount n H; cbn in H.
  - injection H as <-. lia.
  - destruct (member x "memorySize") as [m| |]; cbn in H; try discriminate.
    destruct (addMemorySize byteCount m) as [b| |]; cbn in H; try discriminate.
    destruct (reaches b maxBytes).
    + injection H as <-. cbn. lia.
    + apply IH in H. cbn. lia.
Qed.

Lemma cleanedRequests_length (entries : list Value) (batch : list Value) :
  cleanedRequests entries = Ret batch -> length batch = length entries.
Proof.
  revert batch. induction entries as [|x rest IH]; intros batch H; cbn in H.
  - injection H as <-. reflexivity.
  - destruct (member x "cleanedRequest") as [c| |]; cbn in H; try discriminate.
    destruct (cleanedRequests rest) as [cs| |]; cbn in H; try discriminate.
    injection H as <-. cbn. rewrite (IH cs eq_refl). reflexivity.
Qed.

Lemma start_SingleDrain (s s' : State) (t : Transfer) :
  liveCount s = 0%nat ->
  transfers s' = transfers s ++ [t] ->
  executingQueue s' = true ->
  live t = true ->
  (inFlight t = true -> (numberToSend t <= length (outQueue s'))%nat) ->
  SingleDrain s'.
Proof.
  intros Hquiet Hts Hflag Hlive Hsel. right.
  pose proof (quiet_no_flight s Hquiet) as Hnofly.
  unfold liveCount, inFlightCount, selectedWithinQueue in *.
  rewrite Hts, countIf_app, Hquiet. cbn [countIf]. rewrite Hlive.
  split; [reflexivity|]. split; [exact Hflag|].
  apply Forall_app. split.
  - apply quiet_selectedWithinQueue. exact Hnofly.
  - constructor; [exact Hsel | constructor].
Qed.

Lemma executeQueue_SingleDrain (cfg : Config) (s : State) :
  liveCount s = 0%nat -> SingleDrain (snd (executeQueue cfg s)).
Proof.
  intros Hquiet.
  unfold executeQueue. cbn [outQueue set_outQueue configCollectorUrl].
  destruct (scrub (outQueue s)) as [|nextRequest rest] eqn:Hq.
  { left. exact Hquiet. }
  destruct (configCollectorUrl s) as [url|]; [|left; exact Hquiet].
  destruct (usePost cfg).
  - cbn [outQueue set_outQueue set_executingQueue].
    destruct (chooseHowManyToExecute (maxBytes cfg) (nextRequest :: rest)) as [n| |] eqn:Hn.
    + apply chooseLoop_bound in Hn. cbn [Nat.add] in Hn.
      destruct (cleanedRequests (firstn n (nextRequest :: rest))) as [batch| |].
      * destruct (0 <? length batch)%nat.
        -- eapply start_SingleDrain; [exact Hquiet | reflexivity..|].
           intros _. exact Hn.
        -- eapply start_SingleDrain; [exact Hquiet | reflexivity..|].
           intros H. discriminate H.
      * eapply start_SingleDrain; [exact Hquiet | reflexivity..|].
        intros H. discriminate H.
      * left. exact Hquiet.
    + eapply start_SingleDrain; [exact Hquiet | reflexivity..|].
      intros H. discriminate H.
    + left. exact Hquiet.
  - destruct (ToString nextRequest) as [q| |].
    + eapply start_SingleDrain; [exact Hquiet | reflexivity..|].
      intros _. cbn. lia.
    + left. exact Hquiet.
    + left. exact Hquiet.
Qed.

Lemma executeQueue_TimersArePost (cfg : Config) (s : State) :
  TimersArePost cfg s -> TimersArePost cfg (snd (executeQueue cfg s)).
Proof.
  unfold TimersArePost, executeQueue. intros H.
  destruct (usePost cfg) eqn:Hpost; repeat case_match; cbn;
    try exact H; apply Forall_app; (split; [exact H|]);
    constructor; try constructor; cbn; congruence.
Qed.

Lemma SingleDrain_same (s s' : State) :
  transfers s' = transfers s ->
  executingQueue s' = executingQueue s ->
  (length (outQueue s) <= length (outQueue s'))%nat ->
  SingleDrain s -> SingleDrain s'.
Proof.
  intros Hts Hflag Hlen [Hquiet|(Hone & Hon & Hsel)]; unfold SingleDrain, liveCount in *.
  - left. rewrite Hts. exact Hquiet.
  - right. rewrite Hts, Hflag. split; [exact Hone|]. split; [exact Hon|].
    unfold selectedWithinQueue in *. rewrite Hts.
    eapply Forall_impl; [exact Hsel|]. cbn. intros t Ht Hfly. specialize (Ht Hfly). lia.
Qed.

Lemma SingleDrain_idle (s : State) :
  SingleDrain s -> executingQueue s = false -> liveCount s = 0%nat.
Proof. intros [H|(_ & H & _)] Hoff; [exact H | congruence]. Qed.

Lemma persist_SingleDrain (cfg : Config) (s : State) :
  SingleDrain s -> SingleDrain (persist cfg s).
Proof.
  destruct (persist_other cfg s) as (Hq & Hflag & _ & Hts & _).
  apply SingleDrain_same; [exact Hts | exact Hflag | rewrite Hq; lia].
Qed.

Lemma saveAndTrigger_invariant (cfg : Config) (url : string) (s : State) :
  TimersArePost cfg s -> SingleDrain s ->
  TimersArePost cfg (snd (saveAndTrigger cfg url s))
  /\ SingleDrain (snd (saveAndTrigger cfg url s)).
Proof.
  intros Htimers Hinv. unfold saveAndTrigger.
  set (s1 := set_configCollectorUrl (Some (url +:+ path cfg)) s).
  set (saving := if useLocalStorage cfg
                 then attemptWriteLocalStorage cfg (queueName cfg)
                        (stringify (JArr (outQueue s1))) s1
                 else (false, s1)).
  assert (Hsaving : SingleDrain (snd saving) /\ TimersArePost cfg (snd saving)).
  { subst saving. unfold attemptWriteLocalStorage.
    destruct (useLocalStorage cfg); [destruct (setItemAccepts cfg _ _)|];
      split; assumption. }
  destruct saving as [saved s2]. cbn [snd] in Hsaving. destruct Hsaving as (Hs2 & Ht2).
  destruct (executingQueue s2) eqn:Hflag; cbn [negb andb]; [auto|].
  destruct (negb saved || (bufferSize cfg <=? Z.of_nat (length (outQueue s2)))%Z);
    [|auto].
  split.
  - apply executeQueue_TimersArePost. exact Ht2.
  - apply executeQueue_SingleDrain. apply SingleDrain_idle; assumption.
Qed.

Lemma push_invariant (cfg : Config) (v : Value) (s : State) :
  TimersArePost cfg s -> SingleDrain s ->
  TimersArePost cfg (push v s) /\ SingleDrain (push v s).
Proof.
  intros Ht Hs. split; [exact Ht|].
  eapply SingleDrain_same; [| | |exact Hs]; cbn; auto.
  rewrite length_app. lia.
Qed.

Lemma enqueueRequest_invariant (cfg : Config) (request : list (string * Value))
    (url : string) (s : State) :
  TimersArePost cfg s -> SingleDrain s ->
  TimersArePost cfg (snd (enqueueRequest cfg request url s))
  /\ SingleDrain (snd (enqueueRequest cfg request url s)).
Proof.
  intros Ht Hs.
  assert (Hpush : forall v, TimersArePost cfg (push v s) /\ SingleDrain (push v s))
    by (intros v; apply push_invariant; assumption).
  assert (Hboth : forall v w,
             TimersArePost cfg (snd (saveAndTrigger cfg url (push w (push v s))))
             /\ SingleDrain (snd (saveAndTrigger cfg url (push w (push v s))))).
  { intros v w. destruct (Hpush v) as [Ht1 Hs1].
    destruct (push_invariant cfg w _ Ht1 Hs1) as [Ht2 Hs2].
    apply saveAndTrigger_invariant; assumption. }
  unfold enqueueRequest.
  repeat case_match; cbn [snd]; try (split; assumption); try apply Hpush;
    try apply Hboth.
Qed.

Lemma bufferFlusher_invariant (cfg : Config) (s : State) :
  TimersArePost cfg s -> SingleDrain s ->
  TimersArePost cfg (snd (bufferFlusher cfg s))
  /\ SingleDrain (snd (bufferFlusher cfg s)).
Proof.
  intros Ht Hs. unfold bufferFlusher.
  destruct (executingQueue s) eqn:Hflag; cbn [negb snd]; [auto|]. split.
  - apply executeQueue_TimersArePost. exact Ht.
  - apply executeQueue_SingleDrain. apply SingleDrain_idle; assumption.
Qed.

Lemma live_is_the_one (s : State) (i : nat) (t : Transfer) :
  SingleDrain s -> transfers s !! i = Some t -> live t = true ->
  liveCount s = 1%nat /\ executingQueue s = true.
Proof.
  intros Hinv Hi Hlive.
  pose proof (countIf_insert live (transfers s) i t (disarmed (landed t)) Hi) as Hc.
  rewrite Hlive in Hc. cbn in Hc. unfold SingleDrain, liveCount in *.
  destruct Hinv as [Hq|(Hone & Hflag & _)]; [lia | auto].
Qed.

Lemma retire_liveCount (s : State) (i : nat) (t t' : Transfer) :
  SingleDrain s -> transfers s !! i = Some t -> live t = true -> live t' = false ->
  countIf live (<[i := t']> (transfers s)) = 0%nat.
Proof.
  intros Hinv Hi Hlive Hdead.
  destruct (live_is_the_one s i t Hinv Hi Hlive) as (Hone & _).
  pose proof (countIf_insert live (transfers s) i t t' Hi) as Hc.
  rewrite Hlive, Hdead in Hc. unfold liveCount in Hone. cbn in Hc. lia.
Qed.

Lemma land_SingleDrain (s s' : State) (i : nat) (t : Transfer) :
  SingleDrain s -> transfers s !! i = Some t -> inFlight t = true ->
  transfers s' = <[i := landed t]> (transfers s) ->
  executingQueue s' = executingQueue s ->
  SingleDrain s'.
Proof.
  intros Hinv Hi Hfly Hts Hflag.
  assert (Hlive : live t = true) by (unfold live; rewrite Hfly; reflexivity).
  destruct (live_is_the_one s i t Hinv Hi Hlive) as (Hone & Hon).
  pose proof (countIf_insert live (transfers s) i t (landed t) Hi) as Hl.
  pose proof (countIf_insert inFlight (transfers s) i t (landed t) Hi) as Hf.
  pose proof (inFlightCount_le_liveCount s) as Hle.
  unfold liveCount, inFlightCount in *. rewrite Hlive in Hl. rewrite Hfly in Hf.
  cbn in Hl, Hf. unfold SingleDrain, liveCount, selectedWithinQueue.
  rewrite Hts, Hflag.
  destruct (timerArmed t); cbn in Hl.
  - right. split; [lia|]. split; [exact Hon|].
    apply quiet_selectedWithinQueue. lia.
  - left. lia.
Qed.

Lemma landed_TimersArePost (cfg : Config) (ts : list Transfer) (i : nat) (t : Transfer) :
  Forall (fun t => timerArmed t = true -> usePost cfg = true) ts ->
  ts !! i = Some t ->
  Forall (fun t => timerArmed t = true -> usePost cfg = true) (<[i := landed t]> ts)
  /\ Forall (fun t => timerArmed t = true -> usePost cfg = true)
       (<[i := disarmed (landed t)]> ts).
Proof.
  intros Hall Hi. split; apply Forall_insert; try exact Hall; cbn.
  - exact (Forall_lookup_1 _ _ _ _ Hall Hi).
  - discriminate.
Qed.

Lemma handle_invariant (cfg : Config) (ev : Event) (s : State) (r : Result unit)
    (s' : State) :
  guarded ev = true ->
  TimersArePost cfg s -> SingleDrain s ->
  handle cfg ev s = Some (r, s') ->
  TimersArePost cfg s' /\ SingleDrain s'.
Proof.
  intros Hg Ht Hs Hstep.
  destruct ev as [request url| | |i status|i|i|i]; cbn [handle] in Hstep;
    try discriminate Hg.
  - injection Hstep as Hstep. change s' with (snd (r, s')). rewrite <- Hstep.
    apply enqueueRequest_invariant; assumption.
  - destruct (flusherRegistered cfg); [|discriminate].
    injection Hstep as Hstep. change s' with (snd (r, s')). rewrite <- Hstep.
    apply bufferFlusher_invariant; assumption.
  - destruct (transfers s !! i) as [t|] eqn:Hi; [|discriminate].
    destruct (usePost cfg) eqn:Hpost; [|discriminate].
    destruct (inFlight t) eqn:Hfly; [|discriminate]. cbn [andb] in Hstep.
    injection Hstep as Hstep.
    assert (Hlive : live t = true) by (unfold live; rewrite Hfly; reflexivity).
    destruct (landed_TimersArePost cfg (transfers s) i t Ht Hi) as (Htl & Htd).
    pose proof (retire_liveCount s i t (disarmed (landed t)) Hs Hi Hlive eq_refl) as Hdead.
    unfold onreadystatechange in Hstep.
    destruct ((200 <=? status)%Z && (status <? 400)%Z).
    + change s' with (snd (r, s')). rewrite <- Hstep. split.
      * apply executeQueue_TimersArePost. unfold TimersArePost.
        cbn [setTransfer transfers set_transfers].
        destruct (persist_other cfg
                    (shiftN (numberToSend t) (setTransfer i (landed t) s)))
          as (_ & _ & _ & -> & _).
        cbn [shiftN setTransfer transfers set_transfers set_outQueue].
        rewrite list_insert_insert_eq. exact Htd.
      * apply executeQueue_SingleDrain. unfold liveCount.
        cbn [setTransfer transfers set_transfers].
        destruct (persist_other cfg
                    (shiftN (numberToSend t) (setTransfer i (landed t) s)))
          as (_ & _ & _ & -> & _).
        cbn [shiftN setTransfer transfers set_transfers set_outQueue].
        rewrite list_insert_insert_eq. exact Hdead.
    + destruct (400 <=? status)%Z; injection Hstep as _ <-.
      * split.
        -- unfold TimersArePost. cbn. rewrite list_insert_insert_eq. exact Htd.
        -- left. unfold liveCount. cbn. rewrite list_insert_insert_eq. exact Hdead.
      * split; [exact Htl|].
        eapply land_SingleDrain; [exact Hs | exact Hi | exact Hfly | reflexivity..].
  - destruct (transfers s !! i) as [t|] eqn:Hi; [|discriminate].
    destruct (usePost cfg) eqn:Hpost; [|discriminate].
    destruct (timerArmed t) eqn:Harmed; [|discriminate]. cbn [andb] in Hstep.
    injection Hstep as _ <-.
    assert (Hlive : live t = true) by (unfold live; rewrite Harmed; apply orb_true_r).
    destruct (landed_TimersArePost cfg (transfers s) i t Ht Hi) as (Htl & Htd).
    split; [exact Htd|]. left.
    exact (retire_liveCount s i t (disarmed (landed t)) Hs Hi Hlive eq_refl).
  - destruct (transfers s !! i) as [t|] eqn:Hi; [|discriminate].
    destruct (usePost cfg) eqn:Hpost; [discriminate|].
    destruct (inFlight t) eqn:Hfly; [|discriminate]. cbn [negb andb] in Hstep.
    injection Hstep as Hstep.
    assert (Hlive : live t = true) by (unfold live; rewrite Hfly; reflexivity).
    assert (Hnotimer : timerArmed t = false).
    { pose proof (Forall_lookup_1 _ _ _ _ Ht Hi) as Hp. cbn in Hp.
      destruct (timerArmed t); [specialize (Hp eq_refl); congruence | reflexivity]. }
    destruct (landed_TimersArePost cfg (transfers s) i t Ht Hi) as (Htl & Htd).
    assert (Hdead : countIf live (<[i := landed t]> (transfers s)) = 0%nat).
    { apply (retire_liveCount s i t (landed t) Hs Hi Hlive).
      unfold live. cbn. exact Hnotimer. }
    change s' with (snd (r, s')). rewrite <- Hstep. unfold onload.
    destruct (persist_other cfg (shiftN 1 (setTransfer i (landed t) s)))
      as (_ & _ & _ & Hts & _).
    split.
    + apply executeQueue_TimersArePost. unfold TimersArePost. rewrite Hts. exact Htl.
    + apply executeQueue_SingleDrain. unfold liveCount. rewrite Hts. exact Hdead.
  - destruct (transfers s !! i) as [t|] eqn:Hi; [|discriminate].
    destruct (usePost cfg) eqn:Hpost; [discriminate|].
    destruct (inFlight t) eqn:Hfly; [|discriminate]. cbn [negb andb] in Hstep.
    injection Hstep as _ <-.
    assert (Hlive : live t = true) by (unfold live; rewrite Hfly; reflexivity).
    assert (Hnotimer : timerArmed t = false).
    { pose proof (Forall_lookup_1 _ _ _ _ Ht Hi) as Hp. cbn in Hp.
      destruct (timerArmed t); [specialize (Hp eq_refl); congruence | reflexivity]. }
    destruct (landed_TimersArePost cfg (transfers s) i t Ht Hi) as (Htl & Htd).
    split; [exact Htl|]. left.
    apply (retire_liveCount s i t (landed t) Hs Hi Hlive).
    unfold live. cbn. exact Hnotimer.
Qed.

Lemma run_invariant (cfg : Config) (evs : list Event) :
  forall s0 s,
    forallb guarded evs = true ->
    TimersArePost cfg s0 -> SingleDrain s0 ->
    run cfg evs s0 = Some s ->
    TimersArePost cfg s /\ SingleDrain s.
Proof.
  induction evs as [|ev rest IH]; intros s0 s Hg Ht Hs Hrun; cbn in Hrun.
  - injection Hrun as <-. auto.
  - cbn in Hg. apply andb_prop in Hg as [Hev Hrest].
    destruct (handle cfg ev s0) as [[r s1]|] eqn:Hstep; [|discriminate].
    destruct (handle_invariant cfg ev s0 r s1 Hev Ht Hs Hstep) as (Ht1 & Hs1).
    destruct r; try discriminate; exact (IH s1 s Hrest Ht1 Hs1 Hrun).
Qed.

Lemma fresh_invariant (cfg : Config) (s : State) :
  transfers s = [] -> TimersArePost cfg s /\ SingleDrain s.
Proof.
  intros H. unfold TimersArePost, SingleDrain, liveCount. rewrite H.
  split; [constructor | left; reflexivity].
Qed.

(** In every state reached through guarded events, the count captured by a
    request in flight is within the queue. *)
Lemma reachable_selectedWithinQueue (cfg : Config) (evs : list Event) (s0 s : State) :
  transfers s0 = [] -> forallb guarded evs = true -> run cfg evs s0 = Some s ->
  selectedWithinQueue s.
Proof.
  intros Hfresh Hg Hrun. destruct (fresh_invariant cfg s0 Hfresh) as (Ht & Hs).
  destruct (run_invariant cfg evs s0 s Hg Ht Hs Hrun) as (_ & [Hq|(_ & _ & Hsel)]);
    [|exact Hsel].
  apply quiet_selectedWithinQueue. apply quiet_no_flight. exact Hq.
Qed.

Lemma saveAndTrigger_busy (cfg : Config) (url : string) (s : State) :
  executingQueue s = true ->
  network (snd (saveAndTrigger cfg url s)) = network s
  /\ transfers (snd (saveAndTrigger cfg url s)) = transfers s.
Proof.
  intros Hbusy. unfold saveAndTrigger, attemptWriteLocalStorage.
  destruct (useLocalStorage cfg); [destruct (setItemAccepts cfg _ _)|];
    cbn; rewrite Hbusy; cbn; auto.
Qed.

(** *** Timeouts of requests in flight *)

Lemma executeQueue_FlightsArmed (cfg : Config) (s : State) :
  FlightsArmed cfg s -> FlightsArmed cfg (snd (executeQueue cfg s)).
Proof.
  unfold FlightsArmed, executeQueue. intros H Hpost. specialize (H Hpost).
  rewrite Hpost. repeat case_match; cbn;
    try exact H; apply Forall_app; (split; [exact H|]);
    constructor; try constructor; cbn; congruence.
Qed.

Lemma saveAndTrigger_FlightsArmed (cfg : Config) (url : string) (s : State) :
  FlightsArmed cfg s -> FlightsArmed cfg (snd (saveAndTrigger cfg url s)).
Proof.
  intros H. unfold saveAndTrigger, attemptWriteLocalStorage.
  destruct (useLocalStorage cfg); [destruct (setItemAccepts cfg _ _)|];
    case_match; try exact H; apply executeQueue_FlightsArmed; exact H.
Qed.

Lemma enqueueRequest_FlightsArmed (cfg : Config) (request : list (string * Value))
    (url : string) (s : State) :
  FlightsArmed cfg s -> FlightsArmed cfg (snd (enqueueRequest cfg request url s)).
Proof.
  intros H.
  assert (Hpushed : forall v w,
             FlightsArmed cfg (snd (saveAndTrigger cfg url (push w (push v s)))))
    by (intros v w; apply saveAndTrigger_FlightsArmed; exact H).
  unfold enqueueRequest. repeat case_match; cbn [snd]; try exact H; apply Hpushed.
Qed.

Lemma landed_FlightsArmed (ts : list Transfer) (i : nat) (t : Transfer) :
  Forall (fun t => inFlight t = true -> timerArmed t = true) ts ->
  Forall (fun t => inFlight t = true -> timerArmed t = true) (<[i := landed t]> ts)
  /\ Forall (fun t => inFlight t = true -> timerArmed t = true)
       (<[i := disarmed (landed t)]> ts).
Proof.
  intros H. split; apply Forall_insert; try exact H; cbn; discriminate.
Qed.

Lemma handle_FlightsArmed (cfg : Config) (ev : Event) (s : State) (r : Result unit)
    (s' : State) :
  FlightsArmed cfg s -> handle cfg ev s = Some (r, s') -> FlightsArmed cfg s'.
Proof.
  intros H Hstep.
  destruct ev as [request url| | |i status|i|i|i]; cbn [handle] in Hstep.
  - injection Hstep as Hstep. change s' with (snd (r, s')). rewrite <- Hstep.
    apply enqueueRequest_FlightsArmed. exact H.
  - injection Hstep as Hstep. change s' with (snd (r, s')). rewrite <- Hstep.
    apply executeQueue_FlightsArmed. exact H.
  - destruct (flusherRegistered cfg); [|discriminate].
    injection Hstep as Hstep. change s' with (snd (r, s')). rewrite <- Hstep.
    unfold bufferFlusher. destruct (executingQueue s); cbn [negb snd];
      [exact H | apply executeQueue_FlightsArmed; exact H].
  - destruct (transfers s !! i) as [t|]; [|discriminate].
    destruct (usePost cfg && inFlight t); [|discriminate].
    injection Hstep as Hstep. unfold onreadystatechange in Hstep.
    destruct ((200 <=? status)%Z && (status <? 400)%Z).
    + change s' with (snd (r, s')). rewrite <- Hstep.
      apply executeQueue_FlightsArmed. intros Hpost. specialize (H Hpost).
      cbn [setTransfer transfers set_transfers].
      destruct (persist_other cfg
                  (shiftN (numberToSend t) (setTransfer i (landed t) s)))
        as (_ & _ & _ & -> & _).
      cbn [shiftN setTransfer transfers set_transfers set_outQueue].
      rewrite list_insert_insert_eq. apply landed_FlightsArmed. exact H.
    + destruct (400 <=? status)%Z; injection Hstep as _ <-; intros Hpost;
        specialize (H Hpost); cbn; try rewrite list_insert_insert_eq;
        apply landed_FlightsArmed; exact H.
  - destruct (transfers s !! i) as [t|]; [|discriminate].
    destruct (usePost cfg && timerArmed t); [|discriminate].
    injection Hstep as _ <-. intros Hpost. specialize (H Hpost). cbn.
    apply landed_FlightsArmed. exact H.
  - destruct (transfers s !! i) as [t|]; [|discriminate].
    destruct (negb (usePost cfg) && inFlight t); [|discriminate].
    injection Hstep as Hstep. change s' with (snd (r, s')). rewrite <- Hstep.
    unfold onload. apply executeQueue_FlightsArmed. intros Hpost. specialize (H Hpost).
    destruct (persist_other cfg (shiftN 1 (setTransfer i (landed t) s)))
      as (_ & _ & _ & -> & _).
    cbn. apply landed_FlightsArmed. exact H.
  - destruct (transfers s !! i) as [t|]; [|discriminate].
    destruct (negb (usePost cfg) && inFlight t); [|discriminate].
    injection Hstep as _ <-. intros Hpost. specialize (H Hpost). cbn.
    apply landed_FlightsArmed. exact H.
Qed.

(** In every state the closure reaches, by whatever events, a POST request
    in flight has its timeout armed. *)
Lemma reachable_FlightsArmed (cfg : Config) (evs : list Event) :
  forall s0 s,
    transfers s0 = [] -> run cfg evs s0 = Some s -> FlightsArmed cfg s.
Proof.
  assert (Hgen : forall s0 s,
             FlightsArmed cfg s0 -> run cfg evs s0 = Some s -> FlightsArmed cfg s).
  { induction evs as [|ev rest IH]; intros s0 s H Hrun; cbn in Hrun.
    - injection Hrun as <-. exact H.
    - destruct (handle cfg ev s0) as [[r s1]|] eqn:Hstep; [|discriminate].
      pose proof (handle_FlightsArmed cfg ev s0 r s1 H Hstep) as H1.
      destruct r; try discriminate; exact (IH s1 s H1 Hrun). }
  intros s0 s Hfresh. apply Hgen. intros _. rewrite Hfresh. constructor.
Qed.

(** *** The exported [executeQueue] *)

(** C2. The exported [executeQueue] does not test [executingQueue]: called
    while the first request is in flight, with [executingQueue] set, it
    posts the same batch again, and two requests are in flight. *)
Theorem executeQueue_twice_two_sends :
  executingQueue postDraining = true
  /\ inFlightCount postDraining = 1%nat
  /\ length (network postDraining) = 1%nat
  /\ fst (executeQueue (fst postManager) postDraining) = Ret tt
  /\ inFlightCount (snd (executeQueue (fst postManager) postDraining)) = 2%nat
  /\ length (network (snd (executeQueue (fst postManager) postDraining))) = 2%nat.
Proof. repeat split; vm_compute; reflexivity. Qed.

(** C5. An accepted request does not always remove the entries it sent.
    After a direct call of the exported [executeQueue] during a drain, two
    requests have selected the same two entries. The acceptance of request
    0 removes them and leaves the queue empty, with request 1 still in
    flight and its count of 2. Accepted on that queue, request 1 removes
    nothing; accepted after a new event has been enqueued, it removes the
    two entries of that event, which no request has carried, and the store
    is rewritten with the empty queue. *)
Theorem second_acceptance_removes_unsent_entries :
  run (fst postManager) doubleDrainTrace (snd postManager) = Some afterDoubleDrain
  /\ network afterDoubleDrain
     = [Post "http://c/com.snowplowanalytics.snowplow/tp2"
          (envelope [JObj pageView; JObj pageView]);
        Post "http://c/com.snowplowanalytics.snowplow/tp2"
          (envelope [JObj pageView; JObj pageView])]
  /\ outQueue afterDoubleDrain = []
  /\ executingQueue afterDoubleDrain = false
  /\ transfers afterDoubleDrain !! 1%nat = Some xhrOfTwo
  /\ (exists s',
        handle (fst postManager) (ReadyState4 1 200) afterDoubleDrain = Some (Ret tt, s')
        /\ outQueue s' = outQueue afterDoubleDrain)
  /\ (exists body,
        getBody mixedEvent = Ret body
        /\ outQueue afterLateEvent = [bodyValue body; bodyValue body])
  /\ network afterLateEvent = network afterDoubleDrain
  /\ transfers afterLateEvent !! 1%nat = Some xhrOfTwo
  /\ handle (fst postManager) (ReadyState4 1 200) afterLateEvent
     = Some (Ret tt, afterSecondAcceptance)
  /\ outQueue afterSecondAcceptance = []
  /\ network afterSecondAcceptance = network afterDoubleDrain
  /\ localStorage afterSecondAcceptance !! queueName (fst postManager) = Some "[]".
Proof.
  split; [vm_compute; reflexivity|].
  split; [vm_compute; reflexivity|].
  split; [vm_compute; reflexivity|].
  split; [vm_compute; reflexivity|].
  split; [vm_compute; reflexivity|].
  split; [eexists; split; vm_compute; reflexivity|].
  split; [eexists; split; vm_compute; reflexivity|].
  repeat split; vm_compute; reflexivity.
Qed.

(** The guarded triggers. While [executingQueue] is set, [enqueueRequest]
    and the buffer flusher do not call [executeQueue]: they create no
    request and send nothing. Along every sequence of events that contains
    no direct call of the exported [executeQueue], starting from a manager
    without requests, at most one request is in flight, and then
    [executingQueue] is set. *)
Lemma guarded_triggers_single_send (cfg : Config) :
  (forall s request url,
     executingQueue s = true ->
     network (snd (enqueueRequest cfg request url s)) = network s
     /\ transfers (snd (enqueueRequest cfg request url s)) = transfers s)
  /\ (forall s, executingQueue s = true -> bufferFlusher cfg s = (Ret tt, s))
  /\ (forall evs s0 s,
        transfers s0 = [] ->
        forallb guarded evs = true ->
        run cfg evs s0 = Some s ->
        (inFlightCount s <= 1)%nat
        /\ (inFlightCount s = 1%nat -> executingQueue s = true)).
Proof.
  split; [|split].
  - intros s request url Hbusy.
    assert (Hpushed : forall v w,
               network (snd (saveAndTrigger cfg url (push w (push v s)))) = network s
               /\ transfers (snd (saveAndTrigger cfg url (push w (push v s))))
                  = transfers s)
      by (intros v w; exact (saveAndTrigger_busy cfg url (push w (push v s)) Hbusy)).
    unfold enqueueRequest.
    repeat case_match; cbn [snd]; try (split; reflexivity); apply Hpushed.
  - intros s Hbusy. unfold bufferFlusher. rewrite Hbusy. reflexivity.
  - intros evs s0 s Hfresh Hg Hrun.
    destruct (fresh_invariant cfg s0 Hfresh) as (Ht & Hs).
    destruct (run_invariant cfg evs s0 s Hg Ht Hs Hrun) as (_ & Hinv).
    pose proof (inFlightCount_le_liveCount s) as Hle.
    destruct Hinv as [Hq|(Hone & Hflag & _)]; split; try lia; auto.
Qed.

Lemma guarded_triggers_single_send_example :
  run (fst postManager) busyTrace (snd postManager) = Some afterBusyTrace
  /\ bufferFlusher (fst postManager) postDraining = (Ret tt, postDraining)
  /\ network (snd (enqueueRequest (fst postManager) pageView "http://c" postDraining))
     = network postDraining
  /\ (inFlightCount afterBusyTrace <= 1)%nat
  /\ length (network afterBusyTrace) = 2%nat.
Proof.
  assert (Hrun : run (fst postManager) busyTrace (snd postManager) = Some afterBusyTrace)
    by (vm_compute; reflexivity).
  destruct (guarded_triggers_single_send (fst postManager)) as (Henq & Hflush & Hinv).
  split; [exact Hrun|].
  split; [apply Hflush; vm_compute; reflexivity|].
  split; [apply Henq; vm_compute; reflexivity|].
  split; [|vm_compute; reflexivity].
  apply (Hinv busyTrace (snd postManager) afterBusyTrace eq_refl eq_refl Hrun).
Defined.

(** *** The query string *)

Lemma append_assoc (a b c : string) : (a +:+ b) +:+ c = a +:+ (b +:+ c).
Proof.
  induction a as [|x a IH]; [reflexivity|].
  change (String x ((a +:+ b) +:+ c) = String x (a +:+ (b +:+ c))). f_equal. exact IH.
Qed.

Lemma append_empty_r (a : string) : a +:+ EmptyString = a.
Proof.
  induction a as [|x a IH]; [reflexivity|].
  change (String x (a +:+ EmptyString) = String x a). f_equal. exact IH.
Qed.

Lemma allChars_app (p : ascii -> bool) (a b : string) :
  allChars p (a +:+ b) = allChars p a && allChars p b.
Proof.
  induction a as [|x a IH]; [reflexivity|].
  change (p x && allChars p (a +:+ b) = p x && allChars p a && allChars p b).
  rewrite IH, andb_assoc. reflexivity.
Qed.

Lemma encodeChar_safe (c : ascii) : allChars uriSafe (encodeChar c) = true.
Proof. destruct c as [[] [] [] [] [] [] [] []]; vm_compute; reflexivity. Qed.

Lemma encodeChar_unreserved (c : ascii) :
  uriUnreserved c = true -> encodeChar c = str1 c.
Proof. intros H. unfold encodeChar. rewrite H. reflexivity. Qed.

(** X1. Whatever the string, [encodeURIComponent] produces only unreserved
    characters and percent signs, so an encoded key or value holds none of
    the separators [&], [=] and [?]; and a string of unreserved characters
    is left as it is. *)
Theorem encodeURIComponent_safe (s : string) :
  allChars uriSafe (encodeURIComponent s) = true
  /\ allChars (fun c => negb (existsb (N.eqb (code c)) [38; 61; 63]%N))
       (encodeURIComponent s) = true
  /\ (allChars uriUnreserved s = true -> encodeURIComponent s = s).
Proof.
  assert (Hsafe : allChars uriSafe (encodeURIComponent s) = true).
  { induction s as [|c s IH]; [reflexivity|].
    unfold encodeURIComponent in *. cbn [concatMap].
    rewrite allChars_app, encodeChar_safe, IH. reflexivity. }
  split; [exact Hsafe|]. split.
  - revert Hsafe. generalize (encodeURIComponent s). intros e.
    induction e as [|c e IH]; [reflexivity|]. cbn [allChars].
    intros H. apply andb_prop in H as [Hc He]. rewrite (IH He), andb_true_r.
    revert Hc. destruct c as [[] [] [] [] [] [] [] []]; vm_compute; congruence.
  - clear Hsafe. induction s as [|c s IH]; [reflexivity|]. cbn [allChars]. intros H.
    apply andb_prop in H as [Hc Hs]. unfold encodeURIComponent in *.
    cbn [concatMap]. rewrite (encodeChar_unreserved c Hc), (IH Hs). reflexivity.
Qed.

Lemma encodeURIComponent_safe_witness :
  encodeURIComponent "a-b_c.d~e" = "a-b_c.d~e".
Proof.
  destruct (encodeURIComponent_safe "a-b_c.d~e") as (_ & _ & H).
  apply H. reflexivity.
Defined.

Lemma getOwn_NoDup (props : list (string * Value)) (k : string) (v : Value) :
  NoDup (map fst props) -> In (k, v) props -> getOwn k props = Some v.
Proof.
  induction props as [|[k' v'] rest IH]; intros Hnd Hin; [destruct Hin|].
  cbn [map fst] in Hnd. apply NoDup_cons in Hnd as [Hfresh Hnd].
  cbn [getOwn]. destruct Hin as [Heq|Hin].
  - injection Heq as -> ->. rewrite String.eqb_refl. reflexivity.
  - destruct (String.eqb_spec k k') as [->|_]; [|exact (IH Hnd Hin)].
    exfalso. apply Hfresh. apply list_elem_of_In.
    change k' with (fst (k', v)). apply in_map. exact Hin.
Qed.

Lemma getOwn_In (props : list (string * Value)) (k : string) (v : Value) :
  getOwn k props = Some v -> In (k, v) props.
Proof.
  induction props as [|[k' v'] rest IH]; intros H; [discriminate|].
  cbn [getOwn] in H. destruct (String.eqb_spec k k') as [->|_].
  - injection H as ->. left. reflexivity.
  - right. exact (IH H).
Qed.

Lemma stringOf_ToString (v : Value) (sv : string) :
  ToString v = Ret sv -> stringOf v = sv.
Proof. intros H. unfold stringOf. rewrite H. reflexivity. Qed.

Lemma join_cons (sep p : string) (rest : list string) :
  join sep (p :: rest)
  = p +:+ fold_right (fun x acc => sep +:+ x +:+ acc) EmptyString rest.
Proof.
  revert p. induction rest as [|x rest IH]; intros p.
  - cbn. rewrite append_empty_r. reflexivity.
  - change (join sep (p :: x :: rest)) with (p +:+ sep +:+ join sep (x :: rest)).
    rewrite IH. cbn [fold_right]. reflexivity.
Qed.

Lemma plainPairs_later (request props : list (string * Value)) :
  NoDup (map fst request) ->
  Forall (fun kv => exists sv, ToString (snd kv) = Ret sv) request ->
  (forall kv, In kv props -> In kv request) ->
  forall querystring,
    plainPairs request props querystring false
    = Ret (querystring
           +:+ fold_right (fun x acc => "&" +:+ x +:+ acc) EmptyString
                 (map plainPair (plainFields props))).
Proof.
  intros Hnd Hall. induction props as [|[k v] rest IH]; intros Hsub querystring.
  - cbn. rewrite append_empty_r. reflexivity.
  - assert (Hin : In (k, v) request) by (apply Hsub; left; reflexivity).
    assert (Hrest : forall kv, In kv rest -> In kv request)
      by (intros kv H; apply Hsub; right; exact H).
    cbn [plainPairs]. rewrite (getOwn_NoDup request k v Hnd Hin).
    unfold plainFields. cbn [List.filter fst].
    destruct (isLowPriority k); cbn [negb]; [exact (IH Hrest querystring)|].
    rewrite List.Forall_forall in Hall. destruct (Hall (k, v) Hin) as (sv & Hsv).
    cbn [snd] in Hsv. rewrite Hsv. cbn [bind]. rewrite (IH Hrest).
    cbn [map fold_right].
    change (plainPair (k, v))
      with (encodeURIComponent k +:+ "=" +:+ encodeURIComponent (stringOf v)).
    rewrite (stringOf_ToString v sv Hsv). f_equal.
    rewrite !append_assoc. reflexivity.
Qed.

Lemma plainPairs_first (request props : list (string * Value)) :
  NoDup (map fst request) ->
  Forall (fun kv => exists sv, ToString (snd kv) = Ret sv) request ->
  (forall kv, In kv props -> In kv request) ->
  forall querystring,
    plainPairs request props querystring true
    = Ret (querystring +:+ join "&" (map plainPair (plainFields props))).
Proof.
  intros Hnd Hall. induction props as [|[k v] rest IH]; intros Hsub querystring.
  - cbn. rewrite append_empty_r. reflexivity.
  - assert (Hin : In (k, v) request) by (apply Hsub; left; reflexivity).
    assert (Hrest : forall kv, In kv rest -> In kv request)
      by (intros kv H; apply Hsub; right; exact H).
    cbn [plainPairs]. rewrite (getOwn_NoDup request k v Hnd Hin).
    unfold plainFields. cbn [List.filter fst].
    destruct (isLowPriority k); cbn [negb]; [exact (IH Hrest querystring)|].
    pose proof Hall as Hall'. rewrite List.Forall_forall in Hall'.
    destruct (Hall' (k, v) Hin) as (sv & Hsv).
    cbn [snd] in Hsv. rewrite Hsv. cbn [bind].
    rewrite (plainPairs_later request rest Hnd Hall Hrest).
    cbn [map]. rewrite join_cons.
    change (plainPair (k, v))
      with (encodeURIComponent k +:+ "=" +:+ encodeURIComponent (stringOf v)).
    rewrite (stringOf_ToString v sv Hsv). f_equal.
    rewrite !append_assoc. reflexivity.
Qed.

Lemma contextPairs_layout (request : list (string * Value)) :
  Forall (fun kv => exists sv, ToString (snd kv) = Ret sv) request ->
  forall querystring,
    contextPairs request lowPriorityKeys querystring
    = Ret (querystring +:+ contextPair request "co" +:+ contextPair request "cx").
Proof.
  intros Hall querystring. rewrite List.Forall_forall in Hall.
  unfold lowPriorityKeys, contextPair. cbn [contextPairs].
  destruct (getOwn "co" request) as [v|] eqn:Hco.
  - destruct (Hall ("co", v) (getOwn_In _ _ _ Hco)) as (sv & Hsv). cbn [snd] in Hsv.
    rewrite Hsv, (stringOf_ToString v sv Hsv). cbn [bind].
    destruct (getOwn "cx" request) as [w|] eqn:Hcx.
    + destruct (Hall ("cx", w) (getOwn_In _ _ _ Hcx)) as (sw & Hsw). cbn [snd] in Hsw.
      rewrite Hsw, (stringOf_ToString w sw Hsw). cbn [bind].
      f_equal; rewrite ?append_assoc, ?append_empty_r; reflexivity.
    + f_equal; rewrite ?append_assoc, ?append_empty_r; reflexivity.
  - destruct (getOwn "cx" request) as [w|] eqn:Hcx.
    + destruct (Hall ("cx", w) (getOwn_In _ _ _ Hcx)) as (sw & Hsw). cbn [snd] in Hsw.
      rewrite Hsw, (stringOf_ToString w sw Hsw). cbn [bind].
      f_equal; rewrite ?append_assoc, ?append_empty_r; reflexivity.
    + f_equal; rewrite ?append_assoc, ?append_empty_r; reflexivity.
Qed.

(** X2. For a request with distinct keys, none of them [hasOwnProperty],
    whose values all have a string form, [getQuerystring] returns [?], then
    the fields other than [co] and [cx] in enumeration order, each as
    [key=value] with both parts encoded and joined by [&], then [&co=value]
    and [&cx=value] for the ones the request has, in that order and with an
    unencoded key, wherever they stood in the request. *)
Theorem getQuerystring_layout (request : list (string * Value)) :
  encodable request ->
  getQuerystring request
  = Ret ("?" +:+ join "&" (map plainPair (plainFields request))
         +:+ contextPair request "co" +:+ contextPair request "cx").
Proof.
  intros (Hnd & Hshadow & Hall). unfold getQuerystring. rewrite Hshadow.
  rewrite (plainPairs_first request request Hnd Hall (fun kv H => H)). cbn [bind].
  rewrite (contextPairs_layout request Hall).
  f_equal; rewrite ?append_assoc; reflexivity.
Qed.

Lemma getQuerystring_layout_witness :
  getQuerystring contextFirst = Ret "?e=pv&p=a%20b%26c&co=%7B%7D&cx=e30%3D".
Proof.
  rewrite (getQuerystring_layout contextFirst).
  - reflexivity.
  - split; [|split].
    + repeat constructor; cbn; rewrite ?list_elem_of_In; cbn; intuition discriminate.
    + reflexivity.
    + repeat constructor; eexists; reflexivity.
Defined.

(** *** The keys of the store *)

Lemma queueName_constructed (browser : Browser) (store : gmap string string)
    (functionName namespace : string) (registry : Registry)
    (useLocalStorage usePost : bool) (bufferSize : Z) :
  queueName (fst (constructed browser store functionName namespace registry
                    useLocalStorage usePost bufferSize))
  = "snowplowOutQueue_" +:+ functionName +:+ "_" +:+ namespace +:+ "_"
    +:+ (if OutQueue.usePost
              (fst (constructed browser store functionName namespace registry
                      useLocalStorage usePost bufferSize))
         then "post" else "get").
Proof.
  unfold constructed, OutQueueManager. cbn.
  rewrite ?append_assoc. reflexivity.
Qed.

(** X3. Two managers of the same tracker and namespace, one sending by POST
    and one by GET, never share a key of the store, whatever else they were
    constructed with. *)
Theorem queueName_differs_by_mode (browser1 browser2 : Browser)
    (store1 store2 : gmap string string) (functionName namespace : string)
    (registry1 registry2 : Registry) (local1 local2 post1 post2 : bool)
    (buffer1 buffer2 : Z) :
  let cfg1 := fst (constructed browser1 store1 functionName namespace registry1
                     local1 post1 buffer1) in
  let cfg2 := fst (constructed browser2 store2 functionName namespace registry2
                     local2 post2 buffer2) in
  usePost cfg1 = true -> usePost cfg2 = false -> queueName cfg1 <> queueName cfg2.
Proof.
  intros cfg1 cfg2 H1 H2. subst cfg1 cfg2.
  rewrite !queueName_constructed, H1, H2. intros Heq.
  apply (String.app_inj "snowplowOutQueue_") in Heq.
  apply (String.app_inj functionName) in Heq.
  apply (String.app_inj "_") in Heq.
  apply (String.app_inj namespace) in Heq.
  discriminate Heq.
Qed.

Lemma queueName_differs_by_mode_witness :
  queueName (fst postManager) <> queueName (fst getManager).
Proof.
  exact (queueName_differs_by_mode anyBrowser anyBrowser ∅ ∅ "sp" "cf"
           emptyRegistry emptyRegistry true true true false 10 10 eq_refl eq_refl).
Defined.

(** X4. The key joins the tracker name and the namespace with an underscore
    and escapes neither: a tracker [a_b] with namespace [c] and a tracker
    [a] with namespace [b_c], constructed alike, use the same key. *)
Theorem queueName_underscore_collision (browser : Browser) (store : gmap string string)
    (a b c : string) (registry : Registry) (useLocalStorage usePost : bool)
    (bufferSize : Z) :
  queueName (fst (constructed browser store (a +:+ "_" +:+ b) c registry
                    useLocalStorage usePost bufferSize))
  = queueName (fst (constructed browser store a (b +:+ "_" +:+ c) registry
                      useLocalStorage usePost bufferSize)).
Proof.
  rewrite !queueName_constructed. unfold constructed, OutQueueManager. cbn.
  rewrite ?append_assoc. reflexivity.
Qed.

(** *** When [enqueueRequest] starts a drain *)

Lemma enqueueRequest_accepted (cfg : Config) (request : list (string * Value))
    (url : string) (s : State) (entry : Value) :
  accepted cfg request entry ->
  failsafe entry = false
  /\ enqueueRequest cfg request url s = saveAndTrigger cfg url (push entry (push entry s)).
Proof.
  unfold accepted, enqueueRequest. destruct (usePost cfg).
  - intros (body & Hbody & Hsize & ->). rewrite Hbody.
    destruct (Z.leb_spec (maxBytes cfg) (memorySize body)) as [Hge|_]; [lia|].
    split; reflexivity.
  - intros (q & Hq & ->). rewrite Hq. split; reflexivity.
Qed.

Lemma saveAndTrigger_decision (cfg : Config) (url : string) (s : State) :
  executingQueue s = false ->
  saveAndTrigger cfg url s
  = if triggers cfg (outQueue s)
    then executeQueue cfg (persist cfg (set_configCollectorUrl (Some (url +:+ path cfg)) s))
    else (Ret tt, persist cfg (set_configCollectorUrl (Some (url +:+ path cfg)) s)).
Proof.
  intros Hidle. unfold saveAndTrigger, triggers, saved, persist, attemptWriteLocalStorage.
  cbn [outQueue set_configCollectorUrl].
  destruct (useLocalStorage cfg); cbn [andb];
    [destruct (setItemAccepts cfg _ _)|]; cbn; rewrite Hidle; reflexivity.
Qed.

Lemma executeQueue_starts (cfg : Config) (s : State) (url : string) :
  scrub (outQueue s) <> [] -> configCollectorUrl s = Some url ->
  executingQueue (snd (executeQueue cfg s)) = true.
Proof.
  intros Hne Hurl. unfold executeQueue. cbn [outQueue set_outQueue configCollectorUrl].
  rewrite Hurl. destruct (scrub (outQueue s)); [congruence|].
  repeat case_match; reflexivity.
Qed.

Lemma executeQueue_configCollectorUrl (cfg : Config) (s : State) :
  configCollectorUrl (snd (executeQueue cfg s)) = configCollectorUrl s.
Proof. unfold executeQueue. repeat case_match; reflexivity. Qed.

Lemma scrub_appended (q : list Value) (entry : Value) :
  failsafe entry = false -> scrub (q ++ [entry; entry]) <> [].
Proof.
  intros H. rewrite (scrub_app_kept q [entry] entry H).
  destruct (scrub q); discriminate.
Qed.

(** X5. For an event that [enqueueRequest] accepts on an idle manager, the
    collector URL becomes [url + path], and a drain starts exactly when the
    write of the queue was not reported as saved or the queue has reached
    [bufferSize]: then [executingQueue] is set; otherwise the event is only
    appended, and nothing is requested. *)
Theorem enqueueRequest_trigger_policy (cfg : Config) (request : list (string * Value))
    (url : string) (s : State) (entry : Value) :
  accepted cfg request entry ->
  executingQueue s = false ->
  configCollectorUrl (snd (enqueueRequest cfg request url s)) = Some (url +:+ path cfg)
  /\ if triggers cfg (outQueue s ++ [entry; entry])
     then executingQueue (snd (enqueueRequest cfg request url s)) = true
          /\ outQueue (snd (enqueueRequest cfg request url s))
             = scrub (outQueue s ++ [entry; entry])
     else executingQueue (snd (enqueueRequest cfg request url s)) = false
          /\ outQueue (snd (enqueueRequest cfg request url s))
             = outQueue s ++ [entry; entry]
          /\ network (snd (enqueueRequest cfg request url s)) = network s
          /\ transfers (snd (enqueueRequest cfg request url s)) = transfers s.
Proof.
  intros Hacc Hidle.
  destruct (enqueueRequest_accepted cfg request url s entry Hacc) as (Hkept & ->).
  rewrite (saveAndTrigger_decision cfg url (push entry (push entry s)) Hidle).
  cbn [push outQueue set_outQueue]. rewrite <- app_assoc. cbn [app].
  set (s2 := persist cfg _).
  assert (Hs2 : outQueue s2 = outQueue s ++ [entry; entry]
                /\ executingQueue s2 = false
                /\ configCollectorUrl s2 = Some (url +:+ path cfg)
                /\ transfers s2 = transfers s /\ network s2 = network s).
  { subst s2. destruct (persist_other cfg
      (set_configCollectorUrl (Some (url +:+ path cfg)) (push entry (push entry s))))
      as (-> & -> & -> & -> & -> & _).
    cbn. rewrite <- app_assoc. auto. }
  destruct Hs2 as (Hq & Hflag & Hurl & Hts & Hnet).
  destruct (triggers cfg (outQueue s ++ [entry; entry])).
  - split; [|split].
    + rewrite executeQueue_configCollectorUrl. exact Hurl.
    + apply (executeQueue_starts cfg s2 (url +:+ path cfg)); [|exact Hurl].
      rewrite Hq. apply scrub_appended. exact Hkept.
    + rewrite executeQueue_outQueue, Hq. reflexivity.
  - cbn [snd]. auto.
Qed.

Lemma enqueueRequest_trigger_policy_witness :
  (executingQueue afterOneEvent = false /\ network afterOneEvent = [])
  /\ (executingQueue getDraining = true).
Proof.
  assert (Hpost : accepted (fst postManager) pageView
                    (bodyValue {| cleanedRequest := pageView; memorySize := 36 |})).
  { eexists. split; [reflexivity|]. split; [vm_compute; reflexivity | reflexivity]. }
  assert (Hget : accepted (fst getManager) pageView (JStr "?e=pv&p=web&tv=js-2.3.0")).
  { eexists. split; reflexivity. }
  destruct (enqueueRequest_trigger_policy (fst postManager) pageView "http://c"
              (snd postManager) _ Hpost eq_refl) as (_ & Hp).
  destruct (enqueueRequest_trigger_policy (fst getManager) pageView "http://c"
              (snd getManager) _ Hget eq_refl) as (_ & Hg).
  split.
  - assert (Hno : triggers (fst postManager)
                    (outQueue (snd postManager)
                     ++ [bodyValue {| cleanedRequest := pageView; memorySize := 36 |};
                         bodyValue {| cleanedRequest := pageView; memorySize := 36 |}])
                  = false) by (vm_compute; reflexivity).
    rewrite Hno in Hp. destruct Hp as (Hflag & _ & Hnet & _).
    split; [exact Hflag | exact Hnet].
  - assert (Hyes : triggers (fst getManager)
                     (outQueue (snd getManager)
                      ++ [JStr "?e=pv&p=web&tv=js-2.3.0"; JStr "?e=pv&p=web&tv=js-2.3.0"])
                   = true) by (vm_compute; reflexivity).
    rewrite Hyes in Hg. destruct Hg as (Hflag & _). exact Hflag.
Defined.

(** X6. A manager that the constructor left in GET mode, or without the
    store, has a buffer of one event: every event it accepts while idle
    starts a drain at once, whatever [bufferSize] was asked for. *)
Theorem constructed_unbuffered (browser : Browser) (store : gmap string string)
    (functionName namespace : string) (registry : Registry)
    (useLocalStorage usePost : bool) (bufferSize : Z)
    (request : list (string * Value)) (url : string) (s : State) (entry : Value) :
  let cfg := fst (constructed browser store functionName namespace registry
                    useLocalStorage usePost bufferSize) in
  OutQueue.usePost cfg = false \/ useLocalStorage = false ->
  accepted cfg request entry ->
  executingQueue s = false ->
  OutQueue.bufferSize cfg = 1%Z
  /\ executingQueue (snd (enqueueRequest cfg request url s)) = true.
Proof.
  intros cfg Hmode Hacc Hidle.
  assert (Hone : OutQueue.bufferSize cfg = 1%Z).
  { subst cfg. unfold constructed, OutQueueManager in *. cbn in *.
    destruct Hmode as [-> | ->]; rewrite ?andb_false_r; reflexivity. }
  split; [exact Hone|].
  destruct (enqueueRequest_accepted cfg request url s entry Hacc) as (Hkept & ->).
  rewrite (saveAndTrigger_decision cfg url (push entry (push entry s)) Hidle).
  assert (Htrig : triggers cfg (outQueue (push entry (push entry s))) = true).
  { unfold triggers. rewrite Hone. cbn [push outQueue set_outQueue].
    rewrite !length_app. cbn [length].
    destruct (Z.leb_spec 1 (Z.of_nat (length (outQueue s) + 1 + 1))); [|lia].
    apply orb_true_r. }
  rewrite Htrig.
  apply (executeQueue_starts cfg _ (url +:+ path cfg)).
  - destruct (persist_other cfg
      (set_configCollectorUrl (Some (url +:+ path cfg)) (push entry (push entry s))))
      as (-> & _).
    cbn. rewrite <- app_assoc. apply scrub_appended. exact Hkept.
  - destruct (persist_other cfg
      (set_configCollectorUrl (Some (url +:+ path cfg)) (push entry (push entry s))))
      as (_ & _ & -> & _). reflexivity.
Qed.

Lemma constructed_unbuffered_witness :
  bufferSize (fst getManager) = 1%Z /\ executingQueue getDraining = true.
Proof.
  apply (constructed_unbuffered anyBrowser ∅ "sp" "cf" emptyRegistry true false 10
           pageView "http://c" (snd getManager) (JStr "?e=pv&p=web&tv=js-2.3.0")).
  - left. reflexivity.
  - eexists. split; reflexivity.
  - reflexivity.
Defined.

(** *** What [executeQueue] does with the head of the queue *)

(** X7. When the failsafe loop leaves nothing (the queue is empty or holds
    only numbers and booleans), [executeQueue] empties the queue, clears
    [executingQueue] and returns: it creates no request and does not throw,
    even when no collector URL has been set. *)
Theorem executeQueue_nothing_to_send (cfg : Config) (s : State) :
  forallb failsafe (outQueue s) = true ->
  executeQueue cfg s = (Ret tt, set_executingQueue false (set_outQueue [] s)).
Proof.
  intros Hbad. unfold executeQueue. cbn [outQueue set_outQueue].
  rewrite (scrub_all _ Hbad). reflexivity.
Qed.

Lemma executeQueue_nothing_to_send_witness :
  configCollectorUrl (snd numberManager) = None
  /\ outQueue (snd numberManager) = [JNum 7]
  /\ fst (executeQueue (fst numberManager) (snd numberManager)) = Ret tt
  /\ executingQueue (snd (executeQueue (fst numberManager) (snd numberManager))) = false.
Proof.
  assert (Hq : outQueue (snd numberManager) = [JNum 7]) by (vm_compute; reflexivity).
  split; [reflexivity|]. split; [exact Hq|].
  rewrite (executeQueue_nothing_to_send (fst numberManager) (snd numberManager));
    [split; reflexivity|].
  rewrite Hq. reflexivity.
Defined.

Lemma cleanedRequests_bodies (bodies : list Body) :
  cleanedRequests (map bodyValue bodies) = Ret (cleanedOf bodies).
Proof.
  induction bodies as [|b rest IH]; [reflexivity|].
  cbn [map cleanedRequests]. change (member (bodyValue b) "cleanedRequest")
    with (@Ret (option Value) (Some (JObj (cleanedRequest b)))).
  cbn [bind]. rewrite IH. reflexivity.
Qed.

Lemma executeQueue_post_steps (cfg : Config) (s : State) (url : string) (n : nat)
    (batch : list Value) :
  usePost cfg = true ->
  configCollectorUrl s = Some url ->
  scrub (outQueue s) = outQueue s ->
  outQueue s <> [] ->
  chooseHowManyToExecute (maxBytes cfg) (outQueue s) = Ret n ->
  cleanedRequests (firstn n (outQueue s)) = Ret batch ->
  executeQueue cfg s
  = if (0 <? length batch)%nat
    then (Ret tt,
          send (Post url (envelope batch))
            (addTransfer {| numberToSend := n; inFlight := true; timerArmed := true |}
               (set_executingQueue true (set_outQueue (outQueue s) s))))
    else (Ret tt,
          addTransfer {| numberToSend := n; inFlight := false; timerArmed := true |}
            (set_executingQueue true (set_outQueue (outQueue s) s))).
Proof.
  intros Hpost Hurl Hscrub Hne Hn Hbatch. unfold executeQueue.
  cbn [outQueue set_outQueue set_executingQueue configCollectorUrl].
  rewrite Hscrub, Hurl, Hpost, Hn, Hbatch.
  destruct (outQueue s); [congruence | reflexivity].
Qed.

(** X8. In POST mode, with a collector URL and a queue of [getBody] entries
    whose head is below [maxBytes], [executeQueue] selects at least one
    entry and posts exactly one request to the URL: the payload schema with
    the cleaned requests of the selected entries, in queue order. The queue
    itself is not changed, and [executingQueue] is set. *)
Theorem executeQueue_posts_batch (cfg : Config) (s : State) (url : string)
    (b : Body) (rest : list Body) :
  usePost cfg = true ->
  configCollectorUrl s = Some url ->
  outQueue s = map bodyValue (b :: rest) ->
  (memorySize b < maxBytes cfg)%Z ->
  exists n : nat,
    chooseHowManyToExecute (maxBytes cfg) (outQueue s) = Ret n
    /\ (1 <= n <= length (b :: rest))%nat
    /\ fst (executeQueue cfg s) = Ret tt
    /\ network (snd (executeQueue cfg s))
       = network s ++ [Post url (envelope (cleanedOf (firstn n (b :: rest))))]
    /\ transfers (snd (executeQueue cfg s))
       = transfers s ++ [{| numberToSend := n; inFlight := true; timerArmed := true |}]
    /\ outQueue (snd (executeQueue cfg s)) = outQueue s
    /\ executingQueue (snd (executeQueue cfg s)) = true.
Proof.
  intros Hpost Hurl Hq Hsize.
  destruct (chooseLoop_bodies (maxBytes cfg) (b :: rest) 0 0)
    as (n & Hn & Hlen & _ & Hstop).
  assert (Hpos : (1 <= n)%nat).
  { destruct n as [|n]; [|lia]. exfalso.
    specialize (Hstop ltac:(cbn; lia)).
    change (sizes (b :: rest)) with (memorySize b :: sizes rest) in Hstop.
    rewrite total_firstn_S, firstn_O in Hstop. cbn [total] in Hstop. lia. }
  exists n.
  assert (Hchoose : chooseHowManyToExecute (maxBytes cfg) (outQueue s) = Ret n)
    by (rewrite Hq; exact Hn).
  assert (Hbatch : cleanedRequests (firstn n (outQueue s))
                   = Ret (cleanedOf (firstn n (b :: rest))))
    by (rewrite Hq, firstn_map; apply cleanedRequests_bodies).
  rewrite (executeQueue_post_steps cfg s url n _ Hpost Hurl
             ltac:(rewrite Hq; reflexivity) ltac:(rewrite Hq; discriminate)
             Hchoose Hbatch).
  assert (Hsome : (0 <? length (cleanedOf (firstn n (b :: rest))))%nat = true).
  { unfold cleanedOf. rewrite length_map, firstn_length_le by exact Hlen.
    apply Nat.ltb_lt. lia. }
  rewrite Hsome. repeat split; try reflexivity; try assumption; lia.
Qed.

Lemma executeQueue_posts_batch_witness :
  network postDraining
  = [Post "http://c/com.snowplowanalytics.snowplow/tp2"
       (envelope [JObj pageView; JObj pageView])].
Proof.
  destruct (executeQueue_posts_batch (fst postManager) afterOneEvent
              "http://c/com.snowplowanalytics.snowplow/tp2"
              {| cleanedRequest := pageView; memorySize := 36 |}
              [{| cleanedRequest := pageView; memorySize := 36 |}])
    as (n & Hn & _ & _ & Hnet & _).
  - reflexivity.
  - vm_compute. reflexivity.
  - vm_compute. reflexivity.
  - vm_compute. reflexivity.
  - assert (n = 2%nat) as ->.
    { assert (H : chooseHowManyToExecute (maxBytes (fst postManager))
                    (outQueue afterOneEvent) = Ret 2%nat) by (vm_compute; reflexivity).
      rewrite H in Hn. injection Hn as <-. reflexivity. }
    unfold postDraining, bufferFlusher.
    change (executingQueue afterOneEvent) with false. cbn [negb].
    rewrite Hnet. vm_compute. reflexivity.
Defined.

(** X9. In POST mode a head entry whose [memorySize] is [maxBytes] or more
    (such an entry can only have come from the store) is never sent and
    never removed: [executeQueue] selects nothing and posts nothing, yet it
    sets [executingQueue] and arms the timeout; when the timeout fires the
    manager is idle again with the same queue. *)
Theorem executeQueue_oversize_head_stalls (cfg : Config) (s : State) (url : string)
    (b : Body) (rest : list Value) :
  usePost cfg = true ->
  configCollectorUrl s = Some url ->
  outQueue s = bodyValue b :: rest ->
  (maxBytes cfg <= memorySize b)%Z ->
  fst (executeQueue cfg s) = Ret tt
  /\ network (snd (executeQueue cfg s)) = network s
  /\ outQueue (snd (executeQueue cfg s)) = outQueue s
  /\ executingQueue (snd (executeQueue cfg s)) = true
  /\ transfers (snd (executeQueue cfg s))
     = transfers s ++ [{| numberToSend := 0; inFlight := false; timerArmed := true |}]
  /\ exists s',
       handle cfg (Timeout (length (transfers s))) (snd (executeQueue cfg s))
       = Some (Ret tt, s')
       /\ outQueue s' = outQueue s /\ network s' = network s
       /\ executingQueue s' = false.
Proof.
  intros Hpost Hurl Hq Hsize.
  assert (Hchoose : chooseHowManyToExecute (maxBytes cfg) (outQueue s) = Ret 0%nat).
  { rewrite Hq. unfold chooseHowManyToExecute. cbn [chooseLoop].
    rewrite member_bodyValue_memorySize. cbn [bind addMemorySize plus reaches].
    destruct (Z.leb_spec (maxBytes cfg) (0 + memorySize b)); [reflexivity | lia]. }
  rewrite (executeQueue_post_steps cfg s url 0 [] Hpost Hurl
             ltac:(rewrite Hq; reflexivity) ltac:(rewrite Hq; discriminate)
             Hchoose ltac:(rewrite firstn_O; reflexivity)).
  cbn [Nat.ltb Nat.leb length fst snd].
  split; [reflexivity|]. split; [reflexivity|]. split; [reflexivity|].
  split; [reflexivity|]. split; [reflexivity|].
  eexists. split.
  - cbn [handle addTransfer transfers set_transfers set_executingQueue set_outQueue].
    rewrite lookup_app_r by lia. rewrite Nat.sub_diag. cbn [lookup list_lookup].
    rewrite Hpost. reflexivity.
  - repeat split; reflexivity.
Qed.

Lemma executeQueue_oversize_head_stalls_witness :
  outQueue (snd oversizeManager) = [bodyValue oversizeBody; storedBody]
  /\ network (snd (executeQueue (fst oversizeManager) oversizeReady)) = []
  /\ outQueue (snd (executeQueue (fst oversizeManager) oversizeReady))
     = [bodyValue oversizeBody; storedBody].
Proof.
  assert (Hq : outQueue oversizeReady = bodyValue oversizeBody :: [storedBody])
    by (vm_compute; reflexivity).
  destruct (executeQueue_oversize_head_stalls (fst oversizeManager) oversizeReady
              "http://c/com.snowplowanalytics.snowplow/tp2" oversizeBody [storedBody]
              eq_refl eq_refl Hq ltac:(vm_compute; discriminate))
    as (_ & Hnet & Hout & _).
  split; [exact Hq|]. split; [rewrite Hnet; reflexivity|].
  rewrite Hout. exact Hq.
Defined.

Lemma chooseLoop_NaN (maxBytes : Z) (rest : list Value) :
  forallb addable rest = true ->
  forall i, chooseLoop maxBytes rest i NaN = Ret (i + length rest)%nat.
Proof.
  induction rest as [|x rest IH]; intros Hall i.
  - cbn. rewrite Nat.add_0_r. reflexivity.
  - cbn [forallb] in Hall. apply andb_prop in Hall as [Hx Hrest].
    cbn [chooseLoop length]. unfold addable in Hx.
    destruct (member x "memorySize") as [[[]|]| |]; try discriminate Hx;
      cbn [bind addMemorySize plus reaches]; rewrite (IH Hrest); f_equal; lia.
Qed.

(** X10. An entry without a [memorySize] turns the byte count into [NaN],
    which never reaches [maxBytes]: when the head of the queue is such an
    entry, [chooseHowManyToExecute] selects the whole queue, whatever the
    sizes of the entries behind it. *)
Theorem chooseHowManyToExecute_unsized_head (maxBytes : Z) (x : Value)
    (rest : list Value) :
  unsized x = true ->
  forallb addable rest = true ->
  chooseHowManyToExecute maxBytes (x :: rest) = Ret (S (length rest)).
Proof.
  intros Hx Hrest. unfold chooseHowManyToExecute. cbn [chooseLoop].
  unfold unsized in Hx. destruct (member x "memorySize") as [[v|]| |];
    try discriminate Hx.
  cbn [bind addMemorySize reaches]. rewrite (chooseLoop_NaN maxBytes rest Hrest).
  reflexivity.
Qed.

Lemma chooseHowManyToExecute_unsized_head_witness :
  chooseHowManyToExecute 40000 stringHeaded = Ret 3%nat
  /\ chooseHowManyToExecute 40000 (tl stringHeaded) = Ret 1%nat.
Proof.
  split; [|reflexivity].
  apply (chooseHowManyToExecute_unsized_head 40000 (JStr "?e=pv") (tl stringHeaded));
    reflexivity.
Defined.

(** *** The exceptions of [enqueueRequest] *)

Lemma member_throws (x : Value) (name : string) (e : Exn) :
  member x name = Throw e -> e = TypeError.
Proof. destruct x; cbn; congruence. Qed.

Lemma ToString_throws : forall (v : Value) (e : Exn), ToString v = Throw e -> e = TypeError.
Proof.
  induction v as [|b|n|str|elems IH|props _] using Value_induction; intros e;
    cbn [ToString]; try discriminate.
  - destruct b; discriminate.
  - intros H.
    assert (Helems : forall e',
               (fix elements (l : list Value) : Result (list string) :=
                  match l with
                  | [] => Ret []
                  | x :: rest =>
                      bind (match x with JNull => Ret EmptyString | _ => ToString x end)
                        (fun p => bind (elements rest) (fun ps => Ret (p :: ps)))
                  end) elems = Throw e' -> e' = TypeError).
    { clear H. induction IH as [|x rest Hx _ IHl]; intros e' He'; [discriminate|].
      simpl in He'.
      destruct (match x with JNull => Ret EmptyString | _ => ToString x end)
        as [p| |] eqn:Hp; cbn [bind] in He'.
      - match type of He' with
        | bind ?r _ = _ => destruct r as [qs| |]; cbn [bind] in He';
                           try discriminate He'
        end.
        injection He' as <-. exact (IHl _ eq_refl).
      - injection He' as <-. destruct x; try discriminate Hp; exact (Hx _ Hp).
      - discriminate. }
    match type of H with
    | bind ?r _ = _ => destruct r as [ps| |] eqn:Hr; cbn [bind] in H; try discriminate H
    end.
    injection H as <-. exact (Helems _ eq_refl).
  - destruct (hasOwnProperty props "toString"); congruence.
Qed.

Lemma toString_throws (v : Value) (e : Exn) : toString v = Throw e -> e = TypeError.
Proof. destruct v; cbn [toString]; try apply ToString_throws; congruence. Qed.

Lemma mapValues_throws (props : list (string * Value)) (e : Exn) :
  mapValues toString props = Throw e -> e = TypeError.
Proof.
  induction props as [|[k v] rest IH]; cbn [mapValues]; [discriminate|].
  destruct (toString v) as [sv| |] eqn:Hv; cbn [bind]; try discriminate.
  - destruct (mapValues toString rest) as [c| |]; cbn [bind]; try discriminate.
    intros H. apply IH. exact H.
  - intros H. injection H as <-. exact (toString_throws v _ Hv).
Qed.

Lemma getBody_throws (request : list (string * Value)) (e : Exn) :
  getBody request = Throw e -> e = TypeError.
Proof.
  unfold getBody. destruct (mapValues toString request) eqn:Hm; cbn [bind];
    try discriminate.
  intros H. injection H as <-. exact (mapValues_throws request _ Hm).
Qed.

Lemma plainPairs_throws (request props : list (string * Value)) :
  forall querystring firstPair e,
    plainPairs request props querystring firstPair = Throw e -> e = TypeError.
Proof.
  induction props as [|[k v] rest IH]; intros querystring firstPair e;
    cbn [plainPairs]; [discriminate|].
  destruct (getOwn k request) as [w|]; [|apply IH].
  destruct (isLowPriority k); cbn [negb]; [apply IH|].
  destruct (ToString w) as [sw| |] eqn:Hw; cbn [bind]; try discriminate.
  - apply IH.
  - intros H. injection H as <-. exact (ToString_throws w _ Hw).
Qed.

Lemma contextPairs_throws (request : list (string * Value)) (keys : list string) :
  forall querystring e,
    contextPairs request keys querystring = Throw e -> e = TypeError.
Proof.
  induction keys as [|k rest IH]; intros querystring e; cbn [contextPairs];
    [discriminate|].
  destruct (getOwn k request) as [w|]; [|apply IH].
  destruct (ToString w) as [sw| |] eqn:Hw; cbn [bind]; try discriminate.
  - apply IH.
  - intros H. injection H as <-. exact (ToString_throws w _ Hw).
Qed.

Lemma getQuerystring_throws (request : list (string * Value)) (e : Exn) :
  getQuerystring request = Throw e -> e = TypeError.
Proof.
  unfold getQuerystring. destruct (hasOwnProperty request "hasOwnProperty");
    [congruence|].
  destruct (plainPairs request request "?" true) as [q| |] eqn:Hp; cbn [bind];
    try discriminate.
  - apply contextPairs_throws.
  - intros H. injection H as <-. exact (plainPairs_throws _ _ _ _ _ Hp).
Qed.

Lemma chooseLoop_throws (maxBytes : Z) (rest : list Value) :
  forall i byteCount e,
    chooseLoop maxBytes rest i byteCount = Throw e -> e = TypeError.
Proof.
  induction rest as [|x rest IH]; intros i byteCount e; cbn [chooseLoop];
    [discriminate|].
  destruct (member x "memorySize") as [m| |] eqn:Hm; cbn [bind]; try discriminate.
  - destruct (addMemorySize byteCount m) as [c| |] eqn:Hc; cbn [bind];
      try discriminate.
    + destruct (reaches c maxBytes); [discriminate | apply IH].
    + destruct m as [[]|]; discriminate Hc.
  - intros H. injection H as <-. exact (member_throws _ _ _ Hm).
Qed.

Lemma cleanedRequests_throws (entries : list Value) (e : Exn) :
  cleanedRequests entries = Throw e -> e = TypeError.
Proof.
  induction entries as [|x rest IH]; cbn [cleanedRequests]; [discriminate|].
  destruct (member x "cleanedRequest") as [c| |] eqn:Hc; cbn [bind];
    try discriminate.
  - destruct (cleanedRequests rest) as [cs| |]; cbn [bind]; try discriminate.
    exact IH.
  - intros H. injection H as <-. exact (member_throws _ _ _ Hc).
Qed.

Lemma executeQueue_throws (cfg : Config) (s : State) (url : string) (e : Exn) :
  configCollectorUrl s = Some url ->
  fst (executeQueue cfg s) = Throw e -> e = TypeError.
Proof.
  intros Hurl. unfold executeQueue.
  cbn [outQueue set_outQueue set_executingQueue configCollectorUrl]. rewrite Hurl.
  destruct (scrub (outQueue s)) as [|nextRequest rest]; [discriminate|].
  destruct (usePost cfg).
  - destruct (chooseHowManyToExecute (maxBytes cfg) (nextRequest :: rest))
      as [n| |] eqn:Hn.
    + destruct (cleanedRequests (firstn n (nextRequest :: rest))) as [batch| |] eqn:Hb.
      * destruct (0 <? length batch)%nat; discriminate.
      * cbn [fst]. intros H. injection H as <-. exact (cleanedRequests_throws _ _ Hb).
      * discriminate.
    + cbn [fst]. intros H. injection H as <-. exact (chooseLoop_throws _ _ _ _ _ Hn).
    + discriminate.
  - destruct (ToString nextRequest) as [q| |] eqn:Hq; try discriminate.
    cbn [fst]. intros H. injection H as <-. exact (ToString_throws _ _ Hq).
Qed.

Lemma saveAndTrigger_throws (cfg : Config) (url : string) (s : State) (e : Exn) :
  fst (saveAndTrigger cfg url s) = Throw e -> e = TypeError.
Proof.
  unfold saveAndTrigger, attemptWriteLocalStorage.
  destruct (useLocalStorage cfg); [destruct (setItemAccepts cfg _ _)|];
    case_match; try discriminate; apply (executeQueue_throws cfg _ (url +:+ path cfg));
    reflexivity.
Qed.

(** In the embedding, whose strings are code units up to U+00FF and whose
    requests hold no functions, what [enqueueRequest] throws is a
    [TypeError]. *)
Lemma enqueueRequest_throws (cfg : Config)
    (request : list (string * Value)) (url : string) (s : State) (e : Exn) :
  fst (enqueueRequest cfg request url s) = Throw e -> e = TypeError.
Proof.
  unfold enqueueRequest. destruct (usePost cfg).
  - destruct (getBody request) as [body| |] eqn:Hb.
    + destruct (maxBytes cfg <=? memorySize body)%Z; [discriminate|].
      apply saveAndTrigger_throws.
    + cbn [fst]. intros H. injection H as <-. exact (getBody_throws _ _ Hb).
    + discriminate.
  - destruct (getQuerystring request) as [q| |] eqn:Hq.
    + apply saveAndTrigger_throws.
    + cbn [fst]. intros H. injection H as <-. exact (getQuerystring_throws _ _ Hq).
    + discriminate.
Qed.

(** X11. [enqueueRequest] never lets out the configuration error that
    [executeQueue] throws when no collector URL is set: it sets the URL
    before it starts a drain, whatever the state it is called in, also on
    a manager whose queue came from the store and that has no URL yet. *)
Theorem enqueueRequest_never_throws_no_collector (cfg : Config)
    (request : list (string * Value)) (url : string) (s : State) :
  fst (enqueueRequest cfg request url s) <> Throw (Thrown noCollector).
Proof.
  intros H. pose proof (enqueueRequest_throws cfg request url s _ H) as He.
  discriminate He.
Qed.

(** *** First in, first out *)

Lemma suffixOf_refl (q : list Value) : suffixOf q q.
Proof. exists 0%nat. reflexivity. Qed.

Lemma suffixOf_trans (q1 q2 q3 : list Value) :
  suffixOf q1 q2 -> suffixOf q2 q3 -> suffixOf q1 q3.
Proof.
  intros (k1 & ->) (k2 & ->). exists (k2 + k1)%nat. apply skipn_skipn.
Qed.

Lemma suffixOf_skipn (q : list Value) (n : nat) : suffixOf q (skipn n q).
Proof. exists n. reflexivity. Qed.

Lemma suffixOf_scrub (q : list Value) : suffixOf q (scrub q).
Proof.
  induction q as [|v q (k & IH)]; [apply suffixOf_refl|].
  cbn [scrub]. destruct (failsafe v); [|apply suffixOf_refl].
  exists (S k). exact IH.
Qed.

Lemma suffixOf_app (q q' added : list Value) :
  suffixOf q q' -> suffixOf (q ++ added) (q' ++ added).
Proof.
  intros (k & ->). exists (Nat.min k (length q)). rewrite skipn_app.
  replace (Nat.min k (length q) - length q)%nat with 0%nat by lia.
  rewrite skipn_O. f_equal.
  destruct (Nat.le_gt_cases k (length q)) as [Hle|Hgt].
  - rewrite Nat.min_l by exact Hle. reflexivity.
  - rewrite Nat.min_r by lia. rewrite skipn_all.
    apply skipn_all2. lia.
Qed.

Lemma executeQueue_suffixOf (cfg : Config) (s : State) :
  suffixOf (outQueue s) (outQueue (snd (executeQueue cfg s))).
Proof. rewrite executeQueue_outQueue. apply suffixOf_scrub. Qed.

Lemma enqueueRequest_suffixOf (cfg : Config) (request : list (string * Value))
    (url : string) (s : State) :
  suffixOf (outQueue s ++ entries cfg request)
    (outQueue (snd (enqueueRequest cfg request url s))).
Proof.
  assert (Hpushed : forall v,
             suffixOf (outQueue s ++ [v; v])
               (outQueue (snd (saveAndTrigger cfg url (push v (push v s)))))).
  { intros v.
    destruct (saveAndTrigger_outQueue cfg url (push v (push v s))) as [-> | ->];
      cbn [push outQueue set_outQueue]; rewrite <- app_assoc;
      [apply suffixOf_refl | apply suffixOf_scrub]. }
  unfold enqueueRequest, entries. destruct (usePost cfg).
  - destruct (getBody request) as [body|e|] eqn:Hbody; cbn [snd];
      rewrite ?app_nil_r; try apply suffixOf_refl.
    destruct (maxBytes cfg <=? memorySize body)%Z; cbn [snd];
      rewrite ?app_nil_r; [apply suffixOf_refl | apply Hpushed].
  - destruct (getQuerystring request) as [q|e|] eqn:Hq; cbn [snd];
      rewrite ?app_nil_r; try apply suffixOf_refl.
    apply Hpushed.
Qed.

Lemma handle_suffixOf (cfg : Config) (ev : Event) (s : State) (r : Result unit)
    (s' : State) :
  handle cfg ev s = Some (r, s') ->
  suffixOf (outQueue s ++ entriesOf cfg ev) (outQueue s').
Proof.
  intros Hstep.
  destruct ev as [request url| | |i status|i|i|i]; cbn [handle] in Hstep;
    cbn [entriesOf]; rewrite ?app_nil_r.
  - injection Hstep as Hstep. change s' with (snd (r, s')). rewrite <- Hstep.
    apply enqueueRequest_suffixOf.
  - injection Hstep as Hstep. change s' with (snd (r, s')). rewrite <- Hstep.
    apply executeQueue_suffixOf.
  - destruct (flusherRegistered cfg); [|discriminate].
    injection Hstep as Hstep. change s' with (snd (r, s')). rewrite <- Hstep.
    unfold bufferFlusher. destruct (executingQueue s); cbn [negb snd];
      [apply suffixOf_refl | apply executeQueue_suffixOf].
  - destruct (transfers s !! i) as [t|]; [|discriminate].
    destruct (usePost cfg && inFlight t); [|discriminate].
    injection Hstep as Hstep. unfold onreadystatechange in Hstep.
    destruct ((200 <=? status)%Z && (status <? 400)%Z).
    + change s' with (snd (r, s')). rewrite <- Hstep.
      eapply suffixOf_trans; [|apply executeQueue_suffixOf].
      cbn [setTransfer outQueue set_transfers].
      destruct (persist_other cfg
                  (shiftN (numberToSend t) (setTransfer i (landed t) s))) as (-> & _).
      apply suffixOf_skipn.
    + destruct (400 <=? status)%Z; injection Hstep as _ <-; apply suffixOf_refl.
  - destruct (transfers s !! i) as [t|]; [|discriminate].
    destruct (usePost cfg && timerArmed t); [|discriminate].
    injection Hstep as _ <-. apply suffixOf_refl.
  - destruct (transfers s !! i) as [t|]; [|discriminate].
    destruct (negb (usePost cfg) && inFlight t); [|discriminate].
    injection Hstep as Hstep. change s' with (snd (r, s')). rewrite <- Hstep.
    unfold onload. eapply suffixOf_trans; [|apply executeQueue_suffixOf].
    destruct (persist_other cfg (shiftN 1 (setTransfer i (landed t) s))) as (-> & _).
    apply suffixOf_skipn.
  - destruct (transfers s !! i) as [t|]; [|discriminate].
    destruct (negb (usePost cfg) && inFlight t); [|discriminate].
    injection Hstep as _ <-. apply suffixOf_refl.
Qed.

(** X12. Whatever the events (calls, callbacks, timeouts, in any order the
    browser can deliver them), the queue stays first in, first out: after
    any run the queue is the queue of the start followed by everything the
    [enqueueRequest] calls of the run appended, in the order of the calls,
    less a number of entries at its head. No entry overtakes an older one,
    none is taken from the middle, and none appears that was not
    enqueued. *)
Theorem run_first_in_first_out (cfg : Config) (evs : list Event) (s0 s : State) :
  run cfg evs s0 = Some s ->
  exists k : nat, outQueue s = skipn k (outQueue s0 ++ appended cfg evs).
Proof.
  revert s0. induction evs as [|ev rest IH]; intros s0 Hrun; cbn [run] in Hrun.
  - injection Hrun as <-. exists 0%nat. cbn. rewrite app_nil_r. reflexivity.
  - destruct (handle cfg ev s0) as [[r s1]|] eqn:Hstep; [|discriminate].
    pose proof (handle_suffixOf cfg ev s0 r s1 Hstep) as H1.
    assert (Hrest : run cfg rest s1 = Some s) by (destruct r; congruence).
    unfold appended. cbn [map concat]. rewrite app_assoc.
    exact (suffixOf_trans _ _ _ (suffixOf_app _ _ _ H1) (IH s1 Hrest)).
Qed.

Lemma run_first_in_first_out_witness :
  exists k : nat,
    outQueue afterBusyTrace
    = skipn k (outQueue (snd postManager) ++ appended (fst postManager) busyTrace).
Proof.
  apply (run_first_in_first_out (fst postManager) busyTrace).
  vm_compute. reflexivity.
Defined.

(** *** The keys of the store that a manager writes *)

Lemma ownKeyOnly_refl (cfg : Config) (m : gmap string string) : ownKeyOnly cfg m m.
Proof. split; auto. Qed.

Lemma ownKeyOnly_trans (cfg : Config) (m1 m2 m3 : gmap string string) :
  ownKeyOnly cfg m1 m2 -> ownKeyOnly cfg m2 m3 -> ownKeyOnly cfg m1 m3.
Proof.
  intros (Hoff1 & Hkey1) (Hoff2 & Hkey2). split.
  - intros H. rewrite (Hoff2 H), (Hoff1 H). reflexivity.
  - intros key H. rewrite (Hkey2 key H), (Hkey1 key H). reflexivity.
Qed.

Lemma ownKeyOnly_save (cfg : Config) (q : list Value) (m : gmap string string) :
  ownKeyOnly cfg m (storeAfterSave cfg q m).
Proof.
  unfold storeAfterSave. split.
  - intros ->. reflexivity.
  - intros key Hkey. case_match; [|reflexivity].
    apply lookup_insert_ne. congruence.
Qed.

Lemma enqueueRequest_ownKeyOnly (cfg : Config) (request : list (string * Value))
    (url : string) (s : State) :
  ownKeyOnly cfg (localStorage s) (localStorage (snd (enqueueRequest cfg request url s))).
Proof.
  assert (Hpushed : forall v w,
             ownKeyOnly cfg (localStorage s)
               (localStorage (snd (saveAndTrigger cfg url (push w (push v s)))))).
  { intros v w. rewrite saveAndTrigger_localStorage. apply ownKeyOnly_save. }
  unfold enqueueRequest.
  repeat case_match; cbn [snd]; try apply ownKeyOnly_refl; apply Hpushed.
Qed.

Lemma handle_ownKeyOnly (cfg : Config) (ev : Event) (s : State) (r : Result unit)
    (s' : State) :
  handle cfg ev s = Some (r, s') -> ownKeyOnly cfg (localStorage s) (localStorage s').
Proof.
  intros Hstep.
  destruct ev as [request url| | |i status|i|i|i]; cbn [handle] in Hstep.
  - injection Hstep as Hstep. change s' with (snd (r, s')). rewrite <- Hstep.
    apply enqueueRequest_ownKeyOnly.
  - injection Hstep as Hstep. change s' with (snd (r, s')).
    rewrite <- Hstep, executeQueue_localStorage. apply ownKeyOnly_refl.
  - destruct (flusherRegistered cfg); [|discriminate].
    injection Hstep as Hstep. change s' with (snd (r, s')). rewrite <- Hstep.
    unfold bufferFlusher. destruct (executingQueue s); cbn [negb snd];
      rewrite ?executeQueue_localStorage; apply ownKeyOnly_refl.
  - destruct (transfers s !! i) as [t|]; [|discriminate].
    destruct (usePost cfg && inFlight t); [|discriminate].
    injection Hstep as Hstep. unfold onreadystatechange in Hstep.
    destruct ((200 <=? status)%Z && (status <? 400)%Z).
    + change s' with (snd (r, s')). rewrite <- Hstep, executeQueue_localStorage.
      cbn [setTransfer localStorage set_transfers]. rewrite persist_localStorage.
      apply ownKeyOnly_save.
    + destruct (400 <=? status)%Z; injection Hstep as _ <-; apply ownKeyOnly_refl.
  - destruct (transfers s !! i) as [t|]; [|discriminate].
    destruct (usePost cfg && timerArmed t); [|discriminate].
    injection Hstep as _ <-. apply ownKeyOnly_refl.
  - destruct (transfers s !! i) as [t|]; [|discriminate].
    destruct (negb (usePost cfg) && inFlight t); [|discriminate].
    injection Hstep as Hstep. change s' with (snd (r, s')).
    rewrite <- Hstep. unfold onload. rewrite executeQueue_localStorage.
    rewrite persist_localStorage. apply ownKeyOnly_save.
  - destruct (transfers s !! i) as [t|]; [|discriminate].
    destruct (negb (usePost cfg) && inFlight t); [|discriminate].
    injection Hstep as _ <-. apply ownKeyOnly_refl.
Qed.

(** X13. Along any run a manager writes the store under its own key only:
    the value under every other key is the one the run started with, and
    when the manager was constructed without the store, the store is not
    written at all. *)
Theorem run_writes_own_key_only (cfg : Config) (evs : list Event) (s0 s : State) :
  run cfg evs s0 = Some s ->
  (forall key, key <> queueName cfg -> localStorage s !! key = localStorage s0 !! key)
  /\ (useLocalStorage cfg = false -> localStorage s = localStorage s0).
Proof.
  intros Hrun.
  assert (H : ownKeyOnly cfg (localStorage s0) (localStorage s)).
  { revert s0 Hrun. induction evs as [|ev rest IH]; intros s0 Hrun; cbn [run] in Hrun.
    - injection Hrun as <-. apply ownKeyOnly_refl.
    - destruct (handle cfg ev s0) as [[r s1]|] eqn:Hstep; [|discriminate].
      pose proof (handle_ownKeyOnly cfg ev s0 r s1 Hstep) as H1.
      assert (Hrest : run cfg rest s1 = Some s) by (destruct r; congruence).
      exact (ownKeyOnly_trans _ _ _ _ H1 (IH s1 Hrest)). }
  destruct H as (Hoff & Hkey). split; assumption.
Qed.

Lemma run_writes_own_key_only_witness :
  localStorage afterSharedRun !! "theme" = Some "dark".
Proof.
  destruct (run_writes_own_key_only (fst sharedManager) busyTrace (snd sharedManager)
              afterSharedRun ltac:(vm_compute; reflexivity)) as (Hkey & _).
  rewrite (Hkey "theme"); [reflexivity|].
  vm_compute. discriminate.
Defined.

(** *** What a request in flight carries *)

Lemma quiet_SentIsHead (cfg : Config) (s : State) :
  inFlightCount s = 0%nat -> SentIsHead cfg s.
Proof.
  intros Hq. pose proof (countIf_zero inFlight (transfers s) Hq) as Hnone.
  unfold SentIsHead. eapply List.Forall_impl; [|exact Hnone].
  cbn. intros t Hf Ht. congruence.
Qed.

Lemma executeQueue_SentIsHead (cfg : Config) (s : State) :
  inFlightCount s = 0%nat -> SentIsHead cfg (snd (executeQueue cfg s)).
Proof.
  intros Hq. pose proof (countIf_zero inFlight (transfers s) Hq) as Hnone.
  assert (Hold : forall net q,
             Forall (fun t => inFlight t = true ->
                       exists call, last net = Some call
                                    /\ carries cfg call (firstn (numberToSend t) q))
               (transfers s)).
  { intros net q. eapply List.Forall_impl; [|exact Hnone].
    cbn. intros t Hf Ht. congruence. }
  unfold SentIsHead, executeQueue.
  cbn [outQueue set_outQueue set_executingQueue configCollectorUrl].
  destruct (scrub (outQueue s)) as [|nextRequest rest] eqn:Hscrub; [apply Hold|].
  destruct (configCollectorUrl s) as [url|]; [|apply Hold].
  destruct (usePost cfg) eqn:Hpost.
  - destruct (chooseHowManyToExecute (maxBytes cfg) (nextRequest :: rest))
      as [n|e|] eqn:Hn.
    + destruct (cleanedRequests (firstn n (nextRequest :: rest)))
        as [batch|e|] eqn:Hbatch.
      * destruct (0 <? length batch)%nat; cbn; apply Forall_app;
          (split; [apply Hold|]); constructor; try constructor; cbn;
          [|discriminate].
        intros _. eexists. split; [apply last_snoc|].
        unfold carries. rewrite Hpost. exists url, batch. split; [exact Hbatch|reflexivity].
      * cbn. apply Forall_app. split; [apply Hold|].
        constructor; [cbn; discriminate | constructor].
      * apply Hold.
    + cbn. apply Forall_app. split; [apply Hold|].
      constructor; [cbn; discriminate | constructor].
    + apply Hold.
  - destruct (ToString nextRequest) as [qs|e|] eqn:Hqs; try apply Hold.
    cbn. apply Forall_app. split; [apply Hold|]. constructor; [|constructor]. cbn.
    intros _. eexists. split; [apply last_snoc|].
    unfold carries. rewrite Hpost. exists url, nextRequest, qs. auto.
Qed.

Lemma SentIsHead_appended (cfg : Config) (s s' : State) (added : list Value) :
  transfers s' = transfers s ->
  network s' = network s ->
  outQueue s' = outQueue s ++ added ->
  selectedWithinQueue s -> SentIsHead cfg s -> SentIsHead cfg s'.
Proof.
  unfold selectedWithinQueue, SentIsHead. intros -> -> -> Hsel H.
  induction H as [|t ts Ht Hts IH]; [constructor|].
  inversion Hsel as [|? ? Hn Hsel']; subst. constructor; [|exact (IH Hsel')].
  intros Hfly. destruct (Ht Hfly) as (call & Hlast & Hcall).
  exists call. split; [exact Hlast|].
  rewrite firstn_app. specialize (Hn Hfly).
  replace (numberToSend t - length (outQueue s))%nat with 0%nat by lia.
  rewrite firstn_O, app_nil_r. exact Hcall.
Qed.

Lemma saveAndTrigger_busy_outQueue (cfg : Config) (url : string) (s : State) :
  executingQueue s = true ->
  outQueue (snd (saveAndTrigger cfg url s)) = outQueue s.
Proof.
  intros Hbusy. unfold saveAndTrigger, attemptWriteLocalStorage.
  destruct (useLocalStorage cfg); [destruct (setItemAccepts cfg _ _)|];
    cbn; rewrite Hbusy; reflexivity.
Qed.

Lemma saveAndTrigger_quiet_SentIsHead (cfg : Config) (url : string) (s : State) :
  inFlightCount s = 0%nat -> SentIsHead cfg (snd (saveAndTrigger cfg url s)).
Proof.
  intros Hq. unfold saveAndTrigger, attemptWriteLocalStorage.
  destruct (useLocalStorage cfg); [destruct (setItemAccepts cfg _ _)|];
    case_match; cbn [snd];
    first [apply executeQueue_SentIsHead | apply quiet_SentIsHead]; exact Hq.
Qed.

Lemma enqueueRequest_SentIsHead (cfg : Config) (request : list (string * Value))
    (url : string) (s : State) :
  SingleDrain s -> SentIsHead cfg s ->
  SentIsHead cfg (snd (enqueueRequest cfg request url s)).
Proof.
  intros Hs H.
  assert (Hpushed : forall v w,
             SentIsHead cfg (snd (saveAndTrigger cfg url (push w (push v s))))).
  { intros v w. destruct (executingQueue s) eqn:Hbusy.
    - destruct (saveAndTrigger_busy cfg url (push w (push v s)) Hbusy) as (Hnet & Hts).
      pose proof (saveAndTrigger_busy_outQueue cfg url (push w (push v s)) Hbusy) as Hq.
      apply (SentIsHead_appended cfg s _ [v; w]); try assumption.
      + rewrite Hq. cbn [push outQueue set_outQueue]. rewrite <- app_assoc. reflexivity.
      + destruct Hs as [Hquiet|(_ & _ & Hsel)]; [|exact Hsel].
        apply quiet_selectedWithinQueue. apply quiet_no_flight. exact Hquiet.
    - apply saveAndTrigger_quiet_SentIsHead.
      apply quiet_no_flight. exact (SingleDrain_idle s Hs Hbusy). }
  unfold enqueueRequest. repeat case_match; cbn [snd]; try exact H; apply Hpushed.
Qed.

Lemma retire_inFlightCount (s : State) (i : nat) (t t' : Transfer) :
  SingleDrain s -> transfers s !! i = Some t -> live t = true -> inFlight t' = false ->
  countIf inFlight (<[i := t']> (transfers s)) = 0%nat.
Proof.
  intros Hs Hi Hlive Hland.
  pose proof (retire_liveCount s i t (disarmed (landed t)) Hs Hi Hlive eq_refl) as Hdead.
  pose proof (countIf_le inFlight live (<[i := disarmed (landed t)]> (transfers s))) as Hle.
  assert (Himp : forall x, inFlight x = true -> live x = true)
    by (intros x Hx; unfold live; rewrite Hx; reflexivity).
  specialize (Hle Himp).
  pose proof (countIf_insert inFlight (transfers s) i t t' Hi) as H1.
  pose proof (countIf_insert inFlight (transfers s) i t (disarmed (landed t)) Hi) as H2.
  rewrite Hland in H1. cbn [disarmed landed inFlight Nat.b2n] in H2.
  cbn [Nat.b2n] in H1. lia.
Qed.

Lemma handle_SentIsHead (cfg : Config) (ev : Event) (s : State) (r : Result unit)
    (s' : State) :
  guarded ev = true -> SingleDrain s -> SentIsHead cfg s ->
  handle cfg ev s = Some (r, s') -> SentIsHead cfg s'.
Proof.
  intros Hg Hs H Hstep.
  destruct ev as [request url| | |i status|i|i|i]; cbn [handle] in Hstep;
    try discriminate Hg.
  - injection Hstep as Hstep. change s' with (snd (r, s')). rewrite <- Hstep.
    apply enqueueRequest_SentIsHead; assumption.
  - destruct (flusherRegistered cfg); [|discriminate].
    injection Hstep as Hstep. change s' with (snd (r, s')). rewrite <- Hstep.
    unfold bufferFlusher. destruct (executingQueue s) eqn:Hbusy; cbn [negb snd];
      [exact H|].
    apply executeQueue_SentIsHead. apply quiet_no_flight.
    exact (SingleDrain_idle s Hs Hbusy).
  - destruct (transfers s !! i) as [t|] eqn:Hi; [|discriminate].
    destruct (usePost cfg); [|discriminate].
    destruct (inFlight t) eqn:Hfly; [|discriminate]. cbn [andb] in Hstep.
    assert (Hlive : live t = true) by (unfold live; rewrite Hfly; reflexivity).
    injection Hstep as Hstep. unfold onreadystatechange in Hstep.
    destruct ((200 <=? status)%Z && (status <? 400)%Z).
    + change s' with (snd (r, s')). rewrite <- Hstep.
      apply executeQueue_SentIsHead. unfold inFlightCount.
      cbn [setTransfer transfers set_transfers].
      destruct (persist_other cfg
                  (shiftN (numberToSend t) (setTransfer i (landed t) s)))
        as (_ & _ & _ & -> & _).
      cbn [shiftN setTransfer transfers set_transfers set_outQueue].
      rewrite list_insert_insert_eq.
      apply (retire_inFlightCount s i t _ Hs Hi Hlive). reflexivity.
    + destruct (400 <=? status)%Z; injection Hstep as _ <-;
        apply quiet_SentIsHead; unfold inFlightCount; cbn;
        rewrite ?list_insert_insert_eq;
        apply (retire_inFlightCount s i t _ Hs Hi Hlive); reflexivity.
  - destruct (transfers s !! i) as [t|] eqn:Hi; [|discriminate].
    destruct (usePost cfg); [|discriminate].
    destruct (timerArmed t) eqn:Harmed; [|discriminate]. cbn [andb] in Hstep.
    assert (Hlive : live t = true)
      by (unfold live; rewrite Harmed; apply orb_true_r).
    injection Hstep as _ <-. apply quiet_SentIsHead. unfold inFlightCount. cbn.
    apply (retire_inFlightCount s i t _ Hs Hi Hlive). reflexivity.
  - destruct (transfers s !! i) as [t|] eqn:Hi; [|discriminate].
    destruct (usePost cfg); [discriminate|].
    destruct (inFlight t) eqn:Hfly; [|discriminate]. cbn [negb andb] in Hstep.
    assert (Hlive : live t = true) by (unfold live; rewrite Hfly; reflexivity).
    injection Hstep as Hstep. change s' with (snd (r, s')). rewrite <- Hstep.
    unfold onload. apply executeQueue_SentIsHead. unfold inFlightCount.
    destruct (persist_other cfg (shiftN 1 (setTransfer i (landed t) s)))
      as (_ & _ & _ & -> & _).
    cbn. apply (retire_inFlightCount s i t _ Hs Hi Hlive). reflexivity.
  - destruct (transfers s !! i) as [t|] eqn:Hi; [|discriminate].
    destruct (usePost cfg); [discriminate|].
    destruct (inFlight t) eqn:Hfly; [|discriminate]. cbn [negb andb] in Hstep.
    assert (Hlive : live t = true) by (unfold live; rewrite Hfly; reflexivity).
    injection Hstep as _ <-. apply quiet_SentIsHead. unfold inFlightCount. cbn.
    apply (retire_inFlightCount s i t _ Hs Hi Hlive). reflexivity.
Qed.

Lemma run_SentIsHead (cfg : Config) (evs : list Event) :
  forall s0 s,
    forallb guarded evs = true ->
    TimersArePost cfg s0 -> SingleDrain s0 -> SentIsHead cfg s0 ->
    run cfg evs s0 = Some s -> SentIsHead cfg s.
Proof.
  induction evs as [|ev rest IH]; intros s0 s Hg Ht Hs H Hrun; cbn in Hrun.
  - injection Hrun as <-. exact H.
  - cbn in Hg. apply andb_prop in Hg as [Hev Hrest].
    destruct (handle cfg ev s0) as [[r s1]|] eqn:Hstep; [|discriminate].
    destruct (handle_invariant cfg ev s0 r s1 Hev Ht Hs Hstep) as (Ht1 & Hs1).
    pose proof (handle_SentIsHead cfg ev s0 r s1 Hev Hs H Hstep) as H1.
    destruct r; try discriminate; exact (IH s1 s Hrest Ht1 Hs1 H1 Hrun).
Qed.

(** X14. As long as the exported [executeQueue] is not called directly, a
    manager has at most one request in flight, and the entries its success
    handler will remove are the entries that request carries: the count the
    handler captured is within the queue, and the latest request made is
    the one [executeQueue] makes for that many entries at the head of the
    queue as it is now, whatever was enqueued in the meantime. *)
Theorem guarded_run_sent_is_head (cfg : Config) (evs : list Event) (s0 s : State)
    (i : nat) (t : Transfer) :
  transfers s0 = [] ->
  forallb guarded evs = true ->
  run cfg evs s0 = Some s ->
  transfers s !! i = Some t ->
  inFlight t = true ->
  inFlightCount s = 1%nat
  /\ executingQueue s = true
  /\ (numberToSend t <= length (outQueue s))%nat
  /\ exists call,
       last (network s) = Some call
       /\ carries cfg call (firstn (numberToSend t) (outQueue s)).
Proof.
  intros Hfresh Hg Hrun Hi Hfly.
  destruct (fresh_invariant cfg s0 Hfresh) as (Ht & Hs).
  assert (H0 : SentIsHead cfg s0)
    by (unfold SentIsHead; rewrite Hfresh; constructor).
  destruct (run_invariant cfg evs s0 s Hg Ht Hs Hrun) as (_ & Hinv).
  pose proof (run_SentIsHead cfg evs s0 s Hg Ht Hs H0 Hrun) as Hsent.
  assert (Hlive : live t = true) by (unfold live; rewrite Hfly; reflexivity).
  destruct (live_is_the_one s i t Hinv Hi Hlive) as (Hone & Hbusy).
  assert (Hsel : selectedWithinQueue s).
  { destruct Hinv as [Hq|(_ & _ & Hsel)]; [congruence | exact Hsel]. }
  pose proof (inFlightCount_le_liveCount s) as Hle.
  assert (Hpos : (1 <= inFlightCount s)%nat).
  { destruct (inFlightCount s) eqn:Hc; [|lia].
    pose proof (countIf_zero inFlight (transfers s) Hc) as Hnone.
    pose proof (Forall_lookup_1 _ _ _ _ Hnone Hi) as Hno. cbn in Hno. congruence. }
  split; [lia|]. split; [exact Hbusy|].
  split; [exact (Forall_lookup_1 _ _ _ _ Hsel Hi Hfly)|].
  exact (Forall_lookup_1 _ _ _ _ Hsent Hi Hfly).
Qed.

Lemma guarded_run_sent_is_head_witness :
  inFlightCount afterDrainingTrace = 1%nat
  /\ executingQueue afterDrainingTrace = true
  /\ (2 <= length (outQueue afterDrainingTrace))%nat
  /\ exists call,
       last (network afterDrainingTrace) = Some call
       /\ carries (fst postManager) call (firstn 2 (outQueue afterDrainingTrace)).
Proof.
  apply (guarded_run_sent_is_head (fst postManager) drainingTrace (snd postManager)
           afterDrainingTrace 0 xhrOfTwo); vm_compute; reflexivity.
Defined.

(** *** A manager that is draining *)

Lemma saveAndTrigger_busy_state (cfg : Config) (url : string) (s : State) :
  executingQueue s = true ->
  saveAndTrigger cfg url s
  = (Ret tt, persist cfg (set_configCollectorUrl (Some (url +:+ path cfg)) s)).
Proof.
  intros Hbusy. unfold saveAndTrigger, persist, attemptWriteLocalStorage.
  cbn [outQueue set_configCollectorUrl].
  destruct (useLocalStorage cfg); [destruct (setItemAccepts cfg _ _)|];
    cbn; rewrite Hbusy; reflexivity.
Qed.

(** X15. While [executingQueue] is set, an accepted event is only stored:
    [enqueueRequest] appends it, updates the collector URL and writes the
    queue to the store, but creates no request and leaves the flag set; and
    the buffer flusher does nothing at all. The event waits for the handler
    of the request in flight. *)
Theorem busy_manager_only_appends (cfg : Config) (request : list (string * Value))
    (url : string) (s : State) (entry : Value) :
  accepted cfg request entry ->
  executingQueue s = true ->
  fst (enqueueRequest cfg request url s) = Ret tt
  /\ outQueue (snd (enqueueRequest cfg request url s)) = outQueue s ++ [entry; entry]
  /\ network (snd (enqueueRequest cfg request url s)) = network s
  /\ transfers (snd (enqueueRequest cfg request url s)) = transfers s
  /\ executingQueue (snd (enqueueRequest cfg request url s)) = true
  /\ configCollectorUrl (snd (enqueueRequest cfg request url s)) = Some (url +:+ path cfg)
  /\ localStorage (snd (enqueueRequest cfg request url s))
     = storeAfterSave cfg (outQueue s ++ [entry; entry]) (localStorage s)
  /\ bufferFlusher cfg s = (Ret tt, s).
Proof.
  intros Hacc Hbusy.
  destruct (enqueueRequest_accepted cfg request url s entry Hacc) as (_ & ->).
  rewrite (saveAndTrigger_busy_state cfg url (push entry (push entry s)) Hbusy).
  cbn [fst snd]. rewrite persist_localStorage.
  destruct (persist_other cfg
              (set_configCollectorUrl (Some (url +:+ path cfg)) (push entry (push entry s))))
    as (-> & -> & -> & -> & -> & _).
  cbn [push outQueue set_outQueue set_configCollectorUrl network transfers
       executingQueue configCollectorUrl localStorage].
  rewrite <- app_assoc. cbn [app].
  repeat split; try reflexivity; try assumption.
  unfold bufferFlusher. rewrite Hbusy. reflexivity.
Qed.

Lemma busy_manager_only_appends_witness :
  length (outQueue (snd (enqueueRequest (fst postManager) pageView "http://c"
                           postDraining))) = 4%nat
  /\ network (snd (enqueueRequest (fst postManager) pageView "http://c" postDraining))
     = network postDraining.
Proof.
  destruct (busy_manager_only_appends (fst postManager) pageView "http://c" postDraining
              (bodyValue {| cleanedRequest := pageView; memorySize := 36 |}))
    as (_ & Hq & Hnet & _).
  - eexists. split; [reflexivity|]. split; [vm_compute; reflexivity | reflexivity].
  - vm_compute. reflexivity.
  - split; [rewrite Hq; vm_compute; reflexivity | exact Hnet].
Defined.

(** *** A drain by GET *)

Lemma executeQueue_empty (cfg : Config) (s : State) :
  outQueue s = [] ->
  executeQueue cfg s = (Ret tt, set_executingQueue false (set_outQueue [] s)).
Proof.
  intros Hq. unfold executeQueue. cbn [outQueue set_outQueue]. rewrite Hq. reflexivity.
Qed.

Lemma executeQueue_get_head (cfg : Config) (s : State) (url q : string)
    (rest : list Value) :
  usePost cfg = false ->
  configCollectorUrl s = Some url ->
  outQueue s = JStr q :: rest ->
  executeQueue cfg s
  = (Ret tt,
     send (Get (url +:+ q))
       (addTransfer {| numberToSend := 1; inFlight := true; timerArmed := false |}
          (set_executingQueue true (set_outQueue (outQueue s) s)))).
Proof.
  intros Hget Hurl Hq. unfold executeQueue.
  cbn [outQueue set_outQueue set_executingQueue configCollectorUrl].
  rewrite Hq. cbn [scrub failsafe typeof]. rewrite Hurl, Hget. reflexivity.
Qed.

Lemma get_drain (cfg : Config) (url : string) :
  usePost cfg = false ->
  forall (qs : list string) (s : State),
    configCollectorUrl s = Some url ->
    outQueue s = map JStr qs ->
    exists s1 s',
      executeQueue cfg s = (Ret tt, s1)
      /\ run cfg (loads (length (transfers s)) (length qs)) s1 = Some s'
      /\ network s' = network s ++ map (fun q => Get (url +:+ q)) qs
      /\ outQueue s' = []
      /\ executingQueue s' = false
      /\ (qs = [] -> localStorage s' = localStorage s)
      /\ (qs <> [] ->
          useLocalStorage cfg = true ->
          (forall v, setItemAccepts cfg (queueName cfg) v = true) ->
          localStorage s' !! queueName cfg = Some "[]").
Proof.
  intros Hget qs. induction qs as [|q rest IH]; intros s Hurl Hq.
  - rewrite (executeQueue_empty cfg s Hq). eexists. eexists.
    split; [reflexivity|]. split; [reflexivity|]. cbn.
    rewrite app_nil_r. repeat split; try reflexivity. congruence.
  - rewrite (executeQueue_get_head cfg s url q (map JStr rest) Hget Hurl Hq).
    set (t := {| numberToSend := 1; inFlight := true; timerArmed := false |}).
    set (s1 := send _ _).
    set (s2 := persist cfg (shiftN 1 (setTransfer (length (transfers s)) (landed t) s1))).
    assert (Hts1 : transfers s1 = transfers s ++ [t]) by reflexivity.
    assert (Hs2 : outQueue s2 = map JStr rest
                  /\ configCollectorUrl s2 = Some url
                  /\ length (transfers s2) = S (length (transfers s))
                  /\ network s2 = network s ++ [Get (url +:+ q)]).
    { subst s2. destruct (persist_other cfg
        (shiftN 1 (setTransfer (length (transfers s)) (landed t) s1)))
        as (-> & _ & -> & -> & -> & _).
      cbn [shiftN setTransfer outQueue set_outQueue set_transfers configCollectorUrl
           transfers network].
      rewrite length_insert, Hts1, length_app. subst s1. cbn. rewrite Hq, Nat.add_1_r.
      repeat split; try reflexivity. exact Hurl. }
    destruct Hs2 as (Hq2 & Hurl2 & Hlen2 & Hnet2).
    destruct (IH s2 Hurl2 Hq2) as (s3 & s' & Hexec & Hrun & Hnet & Hout & Hflag
                                   & Hsame & Hstore).
    exists s1, s'. split; [reflexivity|].
    split; [|split; [|split; [|split; [|split]]]].
    + cbn [length loads run handle]. rewrite Hts1.
      rewrite (list_lookup_middle (transfers s) [] t (length (transfers s)) eq_refl).
      rewrite Hget. cbn [negb andb inFlight t].
      unfold onload. fold s2. rewrite Hexec. rewrite <- Hlen2. exact Hrun.
    + rewrite Hnet, Hnet2, <- app_assoc. reflexivity.
    + exact Hout.
    + exact Hflag.
    + discriminate.
    + intros _ Hlocal Haccept. destruct rest as [|q' rest'].
      * rewrite (Hsame eq_refl). subst s2. rewrite persist_localStorage.
        destruct (persist_other cfg
                    (shiftN 1 (setTransfer (length (transfers s)) (landed t) s1)))
          as (Hp & _).
        rewrite Hp in Hq2. rewrite Hq2.
        exact (storeAfterSave_accepted cfg [] _ Hlocal (Haccept _)).
      * apply Hstore; [discriminate | exact Hlocal | exact Haccept].
Qed.

(** X16. A GET manager with a collector URL and a queue of query strings
    drains it completely: [executeQueue] followed by the load of every image
    requests each entry once, in queue order, and leaves the queue empty
    and the manager idle; where the store is in use and accepts the writes
    it then holds the empty queue. *)
Theorem get_drain_sends_all_in_order (cfg : Config) (s : State) (url : string)
    (qs : list string) :
  usePost cfg = false ->
  configCollectorUrl s = Some url ->
  outQueue s = map JStr qs ->
  exists s',
    run cfg (ExecuteQueue :: loads (length (transfers s)) (length qs)) s = Some s'
    /\ network s' = network s ++ map (fun q => Get (url +:+ q)) qs
    /\ outQueue s' = []
    /\ executingQueue s' = false
    /\ (qs <> [] ->
        useLocalStorage cfg = true ->
        (forall v, setItemAccepts cfg (queueName cfg) v = true) ->
        localStorage s' !! queueName cfg = Some "[]").
Proof.
  intros Hget Hurl Hq.
  destruct (get_drain cfg url Hget qs s Hurl Hq)
    as (s1 & s' & Hexec & Hrun & Hnet & Hout & Hflag & _ & Hstore).
  exists s'. cbn [run handle]. rewrite Hexec. auto.
Qed.

Lemma get_drain_sends_all_in_order_witness :
  exists s',
    run (fst reloadedGetManager) [ExecuteQueue; ImageLoad 0] reloadedReady = Some s'
    /\ network s' = [Get "http://c/i?e=pv"]
    /\ outQueue s' = []
    /\ localStorage s' !! "snowplowOutQueue_sp_cf_get" = Some "[]".
Proof.
  destruct (get_drain_sends_all_in_order (fst reloadedGetManager) reloadedReady
              "http://c/i" ["?e=pv"] eq_refl eq_refl ltac:(vm_compute; reflexivity))
    as (s' & Hrun & Hnet & Hout & _ & Hstore).
  exists s'. split; [exact Hrun|]. split; [exact Hnet|]. split; [exact Hout|].
  apply Hstore; [discriminate | reflexivity | reflexivity].
Defined.

(** *** A drain by POST *)

Lemma executeQueue_bodies (cfg : Config) (s : State) (url : string)
    (b : Body) (rest : list Body) :
  usePost cfg = true ->
  configCollectorUrl s = Some url ->
  outQueue s = map bodyValue (b :: rest) ->
  (memorySize b < maxBytes cfg)%Z ->
  exists n : nat,
    (1 <= n <= length (b :: rest))%nat
    /\ (total (sizes (firstn n (b :: rest))) < maxBytes cfg)%Z
    /\ executeQueue cfg s
       = (Ret tt,
          send (Post url (envelope (cleanedOf (firstn n (b :: rest)))))
            (addTransfer {| numberToSend := n; inFlight := true; timerArmed := true |}
               (set_executingQueue true (set_outQueue (outQueue s) s)))).
Proof.
  intros Hpost Hurl Hq Hsize.
  destruct (chooseLoop_bodies (maxBytes cfg) (b :: rest) 0 0)
    as (n & Hn & Hlen & Hwithin & Hstop).
  assert (Hpos : (1 <= n)%nat).
  { destruct n as [|n]; [|lia]. exfalso.
    specialize (Hstop ltac:(cbn; lia)).
    change (sizes (b :: rest)) with (memorySize b :: sizes rest) in Hstop.
    rewrite total_firstn_S, firstn_O in Hstop. cbn [total] in Hstop. lia. }
  exists n. split; [lia|]. split.
  - specialize (Hwithin n ltac:(lia)). unfold sizes in *.
    rewrite <- firstn_map. lia.
  - assert (Hchoose : chooseHowManyToExecute (maxBytes cfg) (outQueue s) = Ret n)
      by (rewrite Hq; exact Hn).
    assert (Hbatch : cleanedRequests (firstn n (outQueue s))
                     = Ret (cleanedOf (firstn n (b :: rest))))
      by (rewrite Hq, firstn_map; apply cleanedRequests_bodies).
    rewrite (executeQueue_post_steps cfg s url n _ Hpost Hurl
               ltac:(rewrite Hq; reflexivity) ltac:(rewrite Hq; discriminate)
               Hchoose Hbatch).
    assert (Hsome : (0 <? length (cleanedOf (firstn n (b :: rest))))%nat = true).
    { unfold cleanedOf. rewrite length_map, firstn_length_le by exact Hlen.
      apply Nat.ltb_lt. lia. }
    rewrite Hsome. reflexivity.
Qed.

Lemma post_drain (cfg : Config) (url : string) (status : Z) :
  usePost cfg = true ->
  (200 <= status < 400)%Z ->
  forall (fuel : nat) (bodies : list Body) (s : State),
    (length bodies <= fuel)%nat ->
    configCollectorUrl s = Some url ->
    outQueue s = map bodyValue bodies ->
    Forall (fun b => (memorySize b < maxBytes cfg)%Z) bodies ->
    exists (batches : list (list Body)) (s1 s' : State),
      executeQueue cfg s = (Ret tt, s1)
      /\ run cfg (responses status (length (transfers s)) (length batches)) s1 = Some s'
      /\ concat batches = bodies
      /\ Forall (fun bs => bs <> [] /\ (total (sizes bs) < maxBytes cfg)%Z) batches
      /\ network s'
         = network s ++ map (fun bs => Post url (envelope (cleanedOf bs))) batches
      /\ outQueue s' = []
      /\ executingQueue s' = false
      /\ (bodies = [] -> localStorage s' = localStorage s)
      /\ (bodies <> [] ->
          useLocalStorage cfg = true ->
          (forall v, setItemAccepts cfg (queueName cfg) v = true) ->
          localStorage s' !! queueName cfg = Some "[]").
Proof.
  intros Hpost Hstatus.
  assert (Hok : ((200 <=? status)%Z && (status <? 400)%Z) = true).
  { apply andb_true_intro. split; [apply Z.leb_le | apply Z.ltb_lt]; lia. }
  assert (Hbase : forall s, outQueue s = map bodyValue [] ->
            exists (batches : list (list Body)) (s1 s' : State),
              executeQueue cfg s = (Ret tt, s1)
              /\ run cfg (responses status (length (transfers s)) (length batches)) s1
                 = Some s'
              /\ concat batches = []
              /\ Forall (fun bs => bs <> [] /\ (total (sizes bs) < maxBytes cfg)%Z) batches
              /\ network s'
                 = network s ++ map (fun bs => Post url (envelope (cleanedOf bs))) batches
              /\ outQueue s' = []
              /\ executingQueue s' = false
              /\ (@nil Body = [] -> localStorage s' = localStorage s)
              /\ (@nil Body <> [] ->
                  useLocalStorage cfg = true ->
                  (forall v, setItemAccepts cfg (queueName cfg) v = true) ->
                  localStorage s' !! queueName cfg = Some "[]")).
  { intros s Hq. rewrite (executeQueue_empty cfg s Hq). exists []. eexists. eexists.
    split; [reflexivity|]. split; [reflexivity|]. cbn.
    rewrite app_nil_r. repeat split; try reflexivity; [constructor | congruence]. }
  induction fuel as [|fuel IH]; intros bodies s Hfuel Hurl Hq Hsmall.
  - destruct bodies; [apply Hbase; exact Hq | cbn in Hfuel; lia].
  - destruct bodies as [|b rest]; [apply Hbase; exact Hq|].
    inversion Hsmall as [|? ? Hb Hrest]; subst.
    destruct (executeQueue_bodies cfg s url b rest Hpost Hurl Hq Hb)
      as (n & Hn & Hwithin & Hexec).
    set (t := {| numberToSend := n; inFlight := true; timerArmed := true |}) in *.
    set (i := length (transfers s)).
    set (s1 := send _ _) in Hexec.
    set (s2 := setTransfer i (disarmed (landed t))
                 (persist cfg (shiftN n (setTransfer i (landed t) s1)))).
    assert (Hts1 : transfers s1 = transfers s ++ [t]) by reflexivity.
    destruct (persist_other cfg (shiftN n (setTransfer i (landed t) s1)))
      as (Hpq & _ & Hpurl & Hpts & Hpnet & _).
    assert (Hq2 : outQueue s2 = map bodyValue (skipn n (b :: rest))).
    { subst s2. cbn [setTransfer outQueue set_transfers]. rewrite Hpq.
      subst s1. cbn [shiftN setTransfer outQueue set_outQueue set_transfers send
                     addTransfer set_network set_executingQueue].
      rewrite Hq. apply skipn_map. }
    assert (Hurl2 : configCollectorUrl s2 = Some url).
    { subst s2. cbn [setTransfer configCollectorUrl set_transfers]. rewrite Hpurl.
      exact Hurl. }
    assert (Hlen2 : length (transfers s2) = S i).
    { subst s2. cbn [setTransfer transfers set_transfers]. rewrite length_insert, Hpts.
      cbn [shiftN setTransfer transfers set_transfers set_outQueue].
      rewrite length_insert, Hts1, length_app. cbn. subst i. lia. }
    assert (Hnet2 : network s2
                    = network s ++ [Post url (envelope (cleanedOf (firstn n (b :: rest))))]).
    { subst s2. cbn [setTransfer network set_transfers]. rewrite Hpnet. reflexivity. }
    assert (Hstep : handle cfg (ReadyState4 i status) s1 = Some (executeQueue cfg s2)).
    { cbn [handle]. rewrite Hts1.
      rewrite (list_lookup_middle (transfers s) [] t i eq_refl).
      rewrite Hpost. cbn [andb inFlight t].
      unfold onreadystatechange. rewrite Hok. reflexivity. }
    assert (Hshort : (length (skipn n (b :: rest)) <= fuel)%nat).
    { rewrite length_skipn. cbn [length] in *. lia. }
    assert (Hsmall2 : Forall (fun b => (memorySize b < maxBytes cfg)%Z)
                        (skipn n (b :: rest)))
      by (apply Forall_drop; exact Hsmall).
    destruct (IH (skipn n (b :: rest)) s2 Hshort Hurl2 Hq2 Hsmall2)
      as (batches & s3 & s' & Hexec2 & Hrun & Hcat & Hbatches & Hnet & Hout & Hflag
          & Hsame & Hstore).
    exists (firstn n (b :: rest) :: batches), s1, s'.
    split; [exact Hexec|].
    split; [|split; [|split; [|split; [|split; [|split; [|split]]]]]].
    + cbn [length responses run]. fold i. rewrite Hstep, Hexec2.
      rewrite <- Hlen2. exact Hrun.
    + cbn [concat]. rewrite Hcat. apply firstn_skipn.
    + constructor; [|exact Hbatches]. split; [|exact Hwithin].
      destruct n; [lia | discriminate].
    + rewrite Hnet, Hnet2, <- app_assoc. reflexivity.
    + exact Hout.
    + exact Hflag.
    + discriminate.
    + intros _ Hlocal Haccept.
      destruct (skipn n (b :: rest)) as [|b' rest'] eqn:Hleft.
      * rewrite (Hsame eq_refl). subst s2.
        cbn [setTransfer localStorage set_transfers].
        rewrite persist_localStorage.
        assert (Hnone : outQueue (shiftN n (setTransfer i (landed t) s1)) = []).
        { rewrite <- Hpq. cbn [setTransfer outQueue set_transfers] in Hq2. exact Hq2. }
        rewrite Hnone.
        exact (storeAfterSave_accepted cfg [] _ Hlocal (Haccept _)).
      * apply Hstore; [discriminate | exact Hlocal | exact Haccept].
Qed.

(** X17. A POST manager with a collector URL and a queue of entries that
    [enqueueRequest] made (each below [maxBytes]) drains it completely when
    every request is accepted: [executeQueue] followed by the acceptance of
    each request posts every entry exactly once, in queue order, in
    non-empty batches whose summed [memorySize] stays below [maxBytes], and
    leaves the queue empty and the manager idle; where the store is in use
    and accepts the writes it then holds the empty queue. *)
Theorem post_drain_sends_all_in_order (cfg : Config) (s : State) (url : string)
    (status : Z) (bodies : list Body) :
  usePost cfg = true ->
  (200 <= status < 400)%Z ->
  configCollectorUrl s = Some url ->
  outQueue s = map bodyValue bodies ->
  Forall (fun b => (memorySize b < maxBytes cfg)%Z) bodies ->
  exists (batches : list (list Body)) (s' : State),
    run cfg (ExecuteQueue :: responses status (length (transfers s)) (length batches)) s
    = Some s'
    /\ concat batches = bodies
    /\ Forall (fun bs => bs <> [] /\ (total (sizes bs) < maxBytes cfg)%Z) batches
    /\ network s'
       = network s ++ map (fun bs => Post url (envelope (cleanedOf bs))) batches
    /\ outQueue s' = []
    /\ executingQueue s' = false
    /\ (bodies <> [] ->
        useLocalStorage cfg = true ->
        (forall v, setItemAccepts cfg (queueName cfg) v = true) ->
        localStorage s' !! queueName cfg = Some "[]").
Proof.
  intros Hpost Hstatus Hurl Hq Hsmall.
  destruct (post_drain cfg url status Hpost Hstatus (length bodies) bodies s
              (Nat.le_refl _) Hurl Hq Hsmall)
    as (batches & s1 & s' & Hexec & Hrun & Hcat & Hbatches & Hnet & Hout & Hflag
        & _ & Hstore).
  exists batches, s'. cbn [run handle]. rewrite Hexec. auto 10.
Qed.

Lemma post_drain_sends_all_in_order_witness :
  exists (batches : list (list Body)) (s' : State),
    run (fst postManager)
      (ExecuteQueue :: responses 200 0 (length batches)) afterOneEvent = Some s'
    /\ concat batches
       = [{| cleanedRequest := pageView; memorySize := 36 |};
          {| cleanedRequest := pageView; memorySize := 36 |}]
    /\ outQueue s' = []
    /\ localStorage s' !! "snowplowOutQueue_sp_cf_post" = Some "[]".
Proof.
  destruct (post_drain_sends_all_in_order (fst postManager) afterOneEvent
              "http://c/com.snowplowanalytics.snowplow/tp2" 200
              [{| cleanedRequest := pageView; memorySize := 36 |};
               {| cleanedRequest := pageView; memorySize := 36 |}]
              eq_refl ltac:(lia) ltac:(vm_compute; reflexivity)
              ltac:(vm_compute; reflexivity)
              ltac:(repeat constructor))
    as (batches & s' & Hrun & Hcat & _ & _ & Hout & _ & Hstore).
  exists batches, s'. split; [exact Hrun|]. split; [exact Hcat|]. split; [exact Hout|].
  apply Hstore; [discriminate | reflexivity | reflexivity].
Defined.

(** *** A request that is never answered *)

(** X18. In every state a POST manager reaches, by whatever events, a
    request in flight has its timeout armed: the timeout can fire, and when
    it does the manager is idle again with its queue untouched, so a
    collector that never answers cannot block the queue for good. *)
Theorem post_flight_can_time_out (cfg : Config) (evs : list Event) (s0 s : State)
    (i : nat) (t : Transfer) :
  transfers s0 = [] ->
  run cfg evs s0 = Some s ->
  usePost cfg = true ->
  transfers s !! i = Some t ->
  inFlight t = true ->
  timerArmed t = true
  /\ exists s',
       handle cfg (Timeout i) s = Some (Ret tt, s')
       /\ executingQueue s' = false
       /\ outQueue s' = outQueue s
       /\ localStorage s' = localStorage s
       /\ network s' = network s
       /\ inFlightCount s' = (inFlightCount s - 1)%nat.
Proof.
  intros Hfresh Hrun Hpost Hi Hfly.
  pose proof (reachable_FlightsArmed cfg evs s0 s Hfresh Hrun Hpost) as Harmed.
  pose proof (Forall_lookup_1 _ _ _ _ Harmed Hi Hfly) as Htimer. cbn in Htimer.
  split; [exact Htimer|].
  eexists. split.
  - cbn [handle]. rewrite Hi, Hpost, Htimer. reflexivity.
  - cbn. repeat split; try reflexivity.
    unfold inFlightCount. cbn.
    pose proof (countIf_insert inFlight (transfers s) i t (disarmed (landed t)) Hi) as H.
    rewrite Hfly in H. cbn in H. lia.
Qed.

Lemma post_flight_can_time_out_witness :
  timerArmed xhrOfTwo = true
  /\ exists s',
       handle (fst postManager) (Timeout 0) afterDrainingTrace = Some (Ret tt, s')
       /\ executingQueue s' = false
       /\ outQueue s' = outQueue afterDrainingTrace
       /\ localStorage s' = localStorage afterDrainingTrace
       /\ network s' = network afterDrainingTrace
       /\ inFlightCount s' = (inFlightCount afterDrainingTrace - 1)%nat.
Proof.
  apply (post_flight_can_time_out (fst postManager) drainingTrace (snd postManager)
           afterDrainingTrace 0 xhrOfTwo); vm_compute; reflexivity.
Defined.

End Props.
